(** * fairpy: valuation matrices, agents and bidirectional bag filling

    A shallow embedding of

    - [src/valuations.py]               ([ValuationMatrix], [matrix_from]),
    - [src/indivisible/agents.py]       ([Agent.name], [Agent.__repr__]),
    - [src/items/one_of_threehalves_mms.py] ([bidirectional_bag_filling]),

    followed by the properties of these programs.

    Modelling conventions.
    - A Python exception is a value of [exn]; a computation that may raise
      has type [result A].
    - The table of a [ValuationMatrix] is a numpy array.  The development
      covers the integer case: a two-dimensional array of dtype int64 (what
      [np.array] builds from nested lists of Python ints on 64-bit
      platforms), as a list of rows of [Z] with numpy's wrap-around
      arithmetic written out in [Int64].  The float branch of [normalize]
      is outside the embedding.
    - Python indices are [Z]; a negative index counts from the end and an
      index out of range raises [IndexError], see [py_getitem].
    - A Python [dict] is an association list in insertion order.
    - The methods are given twice.  On values, a method is a function of
      the contents of [self]; these functions carry the arithmetic and the
      errors.  On references, a method is a program on a store of arrays
      and objects ([Object]), which says what each method reads, allocates
      and writes: there [ValuationMatrix(other)] shares the array of
      [other], [v[agent]] is a view, and [normalize] writes in place. *)

From stdpp Require Import base numbers list strings gmap pretty.

Local Open Scope Z_scope.

(** ** Exceptions and the error monad *)

Inductive exn : Type :=
  | IndexError
      (* a list or array index out of range *)
  | ValueError_not_ordered (agent : Z) (v_i : list Z)
      (* "Valuations of agent {i} are not ordered: {v_i}" *)
  | ValueError_thresholds (num_of_agents num_of_thresholds : Z)
      (* "Number of valuations {n} differs from number of thresholds {k}" *)
  | ValueError_not_normalized
      (* "Valuation matrix is not normalized" *)
  | ValueError_empty_reduction
      (* np.lcm.reduce on a zero-size array: lcm has no identity *)
  | ValueError_inhomogeneous
      (* np.array on nested lists whose rows differ in length *)
  | ValueError_remove
      (* list.remove(x): x not in list *)
  | Outside_object_array
      (* not an exception: np.array on a list that holds a dict builds a
         one-dimensional array of dtype object whose elements are the dicts
         themselves; such an array is not a table of numbers and lies
         outside this embedding *).

Inductive result (A : Type) : Type :=
  | Ok (a : A)
  | Raise (e : exn).
Arguments Ok {A} a.
Arguments Raise {A} e.

#[global] Instance exn_eq_dec : EqDecision exn.
Proof. solve_decision. Defined.

#[global] Instance result_ret : MRet result := @Ok.
#[global] Instance result_bind : MBind result := λ A B f r,
  match r with
  | Ok a => f a
  | Raise e => Raise e
  end.

(** ** numpy's int64 arithmetic *)

Module Int64.

Definition min_signed : Z := - 2 ^ 63.
Definition max_signed : Z := 2 ^ 63 - 1.

Definition in_range (z : Z) : Prop := min_signed ≤ z ≤ max_signed.

(** The two's-complement value of [z] modulo 2^64. *)
Definition wrap (z : Z) : Z := (z + 2 ^ 63) `mod` 2 ^ 64 - 2 ^ 63.

Definition add (a b : Z) : Z := wrap (a + b).
Definition mul (a b : Z) : Z := wrap (a * b).

(** [np.floor_divide] on int64: division by zero yields 0 (with a
    warning); otherwise the floor quotient, which wraps only for
    [min_signed // -1]. *)
Definition floor_divide (a b : Z) : Z :=
  if decide (b = 0) then 0 else wrap (a `div` b).

(** [np.lcm] on int64: numpy computes [|a| / gcd(|a|,|b|) * |b|] in the
    unsigned type and converts back, and yields 0 when the gcd is 0. *)
Definition lcm (a b : Z) : Z :=
  let ua := Z.abs a in
  let ub := Z.abs b in
  let g := Z.gcd ua ub in
  if decide (g = 0) then 0 else wrap (ua `div` g * ub).

End Int64.

(** ** Python sequences *)

(** [l[i]] for a Python list or a numpy axis. *)
Definition py_getitem {A} (l : list A) (i : Z) : result A :=
  let n := Z.of_nat (length l) in
  let k := if decide (i < 0) then i + n else i in
  if decide (0 ≤ k < n) then
    match l !! Z.to_nat k with
    | Some x => Ok x
    | None => Raise IndexError
    end
  else Raise IndexError.

(** [range(n)] *)
Definition range (n : Z) : list Z := Z.of_nat <$> seq 0 (Z.to_nat n).

(** [sum(l)] on int64 scalars: Python starts from 0 and adds from the left. *)
Definition py_sum (l : list Z) : Z := foldl Int64.add 0 l.

(** [l.remove(x)]: drops the first occurrence, raises when there is none. *)
Fixpoint py_remove (l : list Z) (x : Z) : result (list Z) :=
  match l with
  | [] => Raise ValueError_remove
  | y :: l' =>
      if decide (y = x) then Ok l'
      else l'' ← py_remove l' x; Ok (y :: l'')
  end.

(** ** numpy arrays (two-dimensional, dtype int64) *)

(** An array of shape (n, m) is the list of its n rows; the empty list is
    an array without rows.  numpy arrays are rectangular, and their entries
    are int64 values: [int64_array] states both. *)
Abbreviation ndarray := (list (list Z)) (only parsing).

Definition rectangular (a : ndarray) : Prop :=
  ∀ r r', r ∈ a → r' ∈ a → length r = length r'.

Definition int64_array (a : ndarray) : Prop :=
  rectangular a ∧ Forall (Forall Int64.in_range) a.

(** [np.array(rows)] on a list of lists of ints: rows of different
    lengths are refused.  The result is read as an int64 array, which is
    what numpy builds when there is at least one entry and every entry is
    in the int64 range ([int64_array]); for other lists of numbers numpy
    chooses another dtype (float64 for floats and for rows without
    entries, uint64 or object for larger ints), which this embedding does
    not cover. *)
Definition np_array (rows : list (list Z)) : result ndarray :=
  match rows with
  | [] => Ok []
  | r :: rows' =>
      if decide (Forall (λ r', length r' = length r) rows') then Ok rows
      else Raise ValueError_inhomogeneous
  end.

(** [np.sum(a, axis=1)]: one int64 total per row. *)
Definition np_sum_axis1 (a : ndarray) : list Z := py_sum <$> a.

(** [np.lcm.reduce(totals)]: folds [np.lcm] from the first element; lcm has
    no identity, so an empty reduction raises. *)
Definition np_lcm_reduce (totals : list Z) : result Z :=
  match totals with
  | [] => Raise ValueError_empty_reduction
  | t :: ts => Ok (foldl Int64.lcm t ts)
  end.

(** The position an index denotes on an axis of length [n] (as in
    [np.delete] and fancy indexing). *)
Definition np_index (n : nat) (i : Z) : result nat :=
  let k := if decide (i < 0) then i + Z.of_nat n else i in
  if decide (0 ≤ k < Z.of_nat n) then Ok (Z.to_nat k) else Raise IndexError.

(** ** ValuationMatrix *)

Record ValuationMatrix : Type := mkValuationMatrix {
  _v : ndarray;
  num_of_agents : Z;
  num_of_objects : Z
}.

(** [ValuationMatrix.__init__] on a numpy array. *)
Definition ValuationMatrix_init (valuation_matrix : ndarray) : ValuationMatrix :=
  let n := Z.of_nat (length valuation_matrix) in
  {| _v := valuation_matrix;
     num_of_agents := n;
     num_of_objects :=
       if decide (n = 0) then 0
       else match valuation_matrix with
            | r :: _ => Z.of_nat (length r)
            | [] => 0
            end |}.

(** The other two forms [__init__] accepts: a list of lists and another
    [ValuationMatrix] (whose table is shared, not copied). *)
Definition ValuationMatrix_of_list (l : list (list Z)) : result ValuationMatrix :=
  a ← np_array l; Ok (ValuationMatrix_init a).
Definition ValuationMatrix_of_matrix (other : ValuationMatrix) : ValuationMatrix :=
  ValuationMatrix_init (_v other).

Definition agents (self : ValuationMatrix) : list Z := range (num_of_agents self).
Definition objects (self : ValuationMatrix) : list Z := range (num_of_objects self).

(** [self[agent]] and [self[agent, object]] *)
Definition getitem_row (self : ValuationMatrix) (key : Z) : result (list Z) :=
  py_getitem (_v self) key.
Definition getitem (self : ValuationMatrix) (key : Z * Z) : result Z :=
  row ← py_getitem (_v self) key.1; py_getitem row key.2.

(** A bundle argument is a list of object indices or [None]. *)
Definition agent_value_for_bundle (self : ValuationMatrix) (agent : Z)
    (bundle : option (list Z)) : result Z :=
  match bundle with
  | None => Ok 0
  | Some bundle =>
      values ← mapM (λ object, row ← py_getitem (_v self) agent;
                               py_getitem row object) bundle;
      Ok (py_sum values)
  end.

(** [np.delete(self._v, agent, axis=0)] and
    [np.delete(self._v, object, axis=1)]: the index is checked against its
    axis, then a new array is built and wrapped in a new matrix.  An array
    is the list of its rows, so the length of axis 1 is read from
    [num_of_objects].  A table without rows does not record how many
    columns it had: there [num_of_objects] is 0 and [without_object]
    refuses every index, as numpy does for the array that [np.array]
    builds from the empty list, and unlike numpy for the array of shape
    (0, k) that removing the last agent leaves. *)
Definition without_agent (self : ValuationMatrix) (agent : Z) : result ValuationMatrix :=
  k ← np_index (length (_v self)) agent;
  Ok (ValuationMatrix_init (delete k (_v self))).

Definition without_object (self : ValuationMatrix) (object : Z) : result ValuationMatrix :=
  k ← np_index (Z.to_nat (num_of_objects self)) object;
  Ok (ValuationMatrix_init (delete k <$> _v self)).

(** [self._v[np.ix_(agents, objects)]]: [np.ix_] turns the two lists into
    index arrays of shapes (len(agents), 1) and (1, len(objects)), and the
    result has one entry per pair.  numpy checks the indices against their
    axes only when there is at least one pair: with an empty list of
    agents or of objects it returns the array of shape
    (len(agents), len(objects)), which has no entry, whatever the other
    indices are. *)
Definition submatrix (self : ValuationMatrix) (agents objects : list Z)
    : result ValuationMatrix :=
  if decide (agents = [] ∨ objects = []) then
    Ok (ValuationMatrix_init ((λ _, []) <$> agents))
  else
    rows ← mapM (np_index (length (_v self))) agents;
    cols ← mapM (np_index (Z.to_nat (num_of_objects self))) objects;
    Ok (ValuationMatrix_init
          ((λ i, (λ j, (_v self !!! i) !!! j) <$> cols) <$> rows)).

(** [any(v_i[j] < v_i[j+1] for j in js)]: stops at the first true test. *)
Fixpoint any_ascent (v_i : list Z) (js : list Z) : result bool :=
  match js with
  | [] => Ok false
  | j :: js' =>
      a ← py_getitem v_i j;
      b ← py_getitem v_i (j + 1);
      if decide (a < b) then Ok true else any_ascent v_i js'
  end.

Fixpoint verify_ordered_from (self : ValuationMatrix) (todo : list Z) : result unit :=
  match todo with
  | [] => Ok ()
  | i :: todo' =>
      v_i ← py_getitem (_v self) i;
      unordered ← any_ascent v_i (range (num_of_objects self - 1));
      if (unordered : bool) then Raise (ValueError_not_ordered i v_i)
      else verify_ordered_from self todo'
  end.

Definition verify_ordered (self : ValuationMatrix) : result unit :=
  verify_ordered_from self (agents self).

(** [normalize], integer branch.  The method updates [self._v] in place:
    the result pairs the object's state after the call with what the call
    returns or raises.  [total_value // total_values] broadcasts one factor
    per row, and [*=] multiplies every entry of the row by it. *)
Definition normalize (self : ValuationMatrix) : ValuationMatrix * result Z :=
  let total_values := np_sum_axis1 (_v self) in
  match np_lcm_reduce total_values with
  | Raise e => (self, Raise e)
  | Ok total_value =>
      let factors := Int64.floor_divide total_value <$> total_values in
      let v' := zip_with (λ row f, (λ x, Int64.mul x f) <$> row) (_v self) factors in
      ({| _v := v';
          num_of_agents := num_of_agents self;
          num_of_objects := num_of_objects self |}, Ok total_value)
  end.

Definition verify_normalized (self : ValuationMatrix) : result Z :=
  let total_values := np_sum_axis1 (_v self) in
  first ← py_getitem total_values 0;
  if decide (Forall (λ t, t = first) total_values) then Ok first
  else Raise ValueError_not_normalized.

Definition equals (self other : ValuationMatrix) : bool :=
  bool_decide (_v self = _v other).

(** ** ValuationMatrix objects in a store *)

(** Python values are references.  The store holds the numpy arrays and
    the [ValuationMatrix] objects allocated so far; a location is a
    position in these lists, and allocation appends.  A method is a
    program that reads the store, allocates in it or writes to it, and
    returns a value or raises; an exception leaves the store as it is at
    that point.  What a method computes from the contents of [self] is the
    function of the same name above. *)
Module Object.

Abbreviation loc := nat (only parsing).

Record instance : Type := mkInstance {
  self_v : loc;               (* self._v, a reference to an array *)
  self_num_of_agents : Z;     (* self.num_of_agents *)
  self_num_of_objects : Z     (* self.num_of_objects *)
}.

#[global] Instance instance_inhabited : Inhabited instance :=
  populate (mkInstance 0 0 0).

Record store : Type := mkStore {
  arrays : list ndarray;
  instances : list instance
}.

Definition M (A : Type) : Type := store → store * result A.

#[global] Instance M_ret : MRet M := λ A a s, (s, Ok a).
#[global] Instance M_bind : MBind M := λ A B f p s,
  match p s with
  | (s', Ok a) => f a s'
  | (s', Raise e) => (s', Raise e)
  end.

#[global] Instance M_fmap : FMap M := λ A B f p, a ← p; mret (f a).

(** A computation on values: it does not touch the store. *)
Definition lift {A} (r : result A) : M A := λ s, (s, r).

(** The operations on the store.  Locations come from allocation, so a
    read never misses in a run that starts from [new]; the default makes
    [read_array] and [read_instance] total. *)
Definition new_array (a : ndarray) : M loc := λ s,
  (mkStore (arrays s ++ [a]) (instances s), Ok (length (arrays s))).
Definition read_array (l : loc) : M ndarray := λ s,
  (s, Ok (arrays s !!! l)).
Definition write_array (l : loc) (a : ndarray) : M unit := λ s,
  (mkStore (<[l := a]> (arrays s)) (instances s), Ok ()).
Definition new_instance (o : instance) : M loc := λ s,
  (mkStore (arrays s) (instances s ++ [o]), Ok (length (instances s))).
Definition read_instance (self : loc) : M instance := λ s,
  (s, Ok (instances s !!! self)).

(** The three forms of argument [__init__] tells apart with [isinstance]. *)
Inductive init_arg : Type :=
  | Arg_array (a : loc)
  | Arg_list (l : list (list Z))
  | Arg_matrix (other : loc).

(** [ValuationMatrix(valuation_matrix)]: a list is copied into a new array
    by [np.array]; an array or another matrix is not copied, the new
    object refers to the same array. *)
Definition new (valuation_matrix : init_arg) : M loc :=
  v ← match valuation_matrix return M loc with
       | Arg_list l => a ← lift (np_array l); new_array a
       | Arg_matrix other => o ← read_instance other; mret (self_v o)
       | Arg_array a => mret a
       end;
  a ← read_array v;
  new_instance (mkInstance v (num_of_agents (ValuationMatrix_init a))
                             (num_of_objects (ValuationMatrix_init a))).

(** The contents of the object at [self]: its attributes, with the array
    that [self._v] refers to. *)
Definition contents (s : store) (self : loc) : ValuationMatrix :=
  let o := instances s !!! self in
  mkValuationMatrix (arrays s !!! self_v o) (self_num_of_agents o) (self_num_of_objects o).

Definition read (self : loc) : M ValuationMatrix :=
  o ← read_instance self;
  a ← read_array (self_v o);
  mret (mkValuationMatrix a (self_num_of_agents o) (self_num_of_objects o)).

Definition agents (self : loc) : M (list Z) :=
  v ← read self; mret (agents v).

Definition objects (self : loc) : M (list Z) :=
  v ← read self; mret (objects v).

(** [self[agent]] is [self._v[agent]], basic indexing: numpy returns a view,
    a reference to row [agent] of the array [self._v]. *)
Definition getitem_row (self : loc) (key : Z) : M (loc * nat) :=
  o ← read_instance self;
  a ← read_array (self_v o);
  k ← lift (np_index (length a) key);
  mret (self_v o, k).

(** Reading a view reads the array it refers to. *)
Definition read_view (view : loc * nat) : M (list Z) :=
  a ← read_array view.1; mret (a !!! view.2).

(** [self[agent, object]] is a scalar. *)
Definition getitem (self : loc) (key : Z * Z) : M Z :=
  v ← read self; lift (getitem v key).

Definition agent_value_for_bundle (self : loc) (agent : Z) (bundle : option (list Z))
    : M Z :=
  v ← read self; lift (agent_value_for_bundle v agent bundle).

(** [np.delete] and indexing with [np.ix_] build a new array, which the
    constructor wraps in a new object. *)
Definition without_agent (self : loc) (agent : Z) : M loc :=
  v ← read self;
  m ← lift (without_agent v agent);
  a ← new_array (_v m);
  new (Arg_array a).

Definition without_object (self : loc) (object : Z) : M loc :=
  v ← read self;
  m ← lift (without_object v object);
  a ← new_array (_v m);
  new (Arg_array a).

Definition submatrix (self : loc) (agents objects : list Z) : M loc :=
  v ← read self;
  m ← lift (submatrix v agents objects);
  a ← new_array (_v m);
  new (Arg_array a).

Definition verify_ordered (self : loc) : M unit :=
  v ← read self; lift (verify_ordered v).

(** [normalize], integer branch: [self._v *= total_value // total_values]
    multiplies the array [self._v] refers to in place. *)
Definition normalize (self : loc) : M Z :=
  o ← read_instance self;
  a ← read_array (self_v o);
  let total_values := np_sum_axis1 a in
  total_value ← lift (np_lcm_reduce total_values);
  let factors := Int64.floor_divide total_value <$> total_values in
  _ ← write_array (self_v o)
        (zip_with (λ row f, (λ x, Int64.mul x f) <$> row) a factors);
  mret total_value.

Definition verify_normalized (self : loc) : M Z :=
  v ← read self; lift (verify_normalized v).

Definition equals (self other : loc) : M bool :=
  v ← read self; w ← read other; mret (equals v w).

(** The public operations of the class as calls on [self]. *)
Inductive method : Type :=
  | Call_agents
  | Call_objects
  | Call_getitem_row (key : Z)
  | Call_getitem (key : Z * Z)
  | Call_agent_value_for_bundle (agent : Z) (bundle : option (list Z))
  | Call_without_agent (agent : Z)
  | Call_without_object (object : Z)
  | Call_submatrix (agents objects : list Z)
  | Call_verify_ordered
  | Call_normalize
  | Call_verify_normalized
  | Call_equals (other : loc).

#[global] Instance method_eq_dec : EqDecision method.
Proof. solve_decision. Defined.

Inductive pyvalue : Type :=
  | VInt (z : Z)
  | VBool (b : bool)
  | VNone
  | VRange (l : list Z)
  | VView (view : loc * nat)
  | VObject (self : loc).

Definition call (c : method) (self : loc) : M pyvalue :=
  match c with
  | Call_agents => VRange <$> agents self
  | Call_objects => VRange <$> objects self
  | Call_getitem_row key => VView <$> getitem_row self key
  | Call_getitem key => VInt <$> getitem self key
  | Call_agent_value_for_bundle agent bundle =>
      VInt <$> agent_value_for_bundle self agent bundle
  | Call_without_agent agent => VObject <$> without_agent self agent
  | Call_without_object object => VObject <$> without_object self object
  | Call_submatrix agents objects => VObject <$> submatrix self agents objects
  | Call_verify_ordered => _ ← verify_ordered self; mret VNone
  | Call_normalize => VInt <$> normalize self
  | Call_verify_normalized => VInt <$> verify_normalized self
  | Call_equals other => VBool <$> equals self other
  end.

End Object.

(** ** matrix_from *)

(** A Python [dict] in insertion order, and [d.values()]. *)
Abbreviation pydict K V := (list (K * V)) (only parsing).
Definition dict_values {K V} (d : pydict K V) : list V := d.*2.

(** One agent's entry in a list or dict input: a list of values, or a
    mapping from item labels to values. *)
Inductive pyrow : Type :=
  | RowList (l : list Z)
  | RowDict (d : pydict string Z).

(** The inputs [matrix_from] distinguishes with [isinstance]. *)
Inductive pyinput : Type :=
  | InMatrix (m : ValuationMatrix)
  | InArray (a : ndarray)
  | InList (l : list pyrow)
  | InDict (d : pydict string pyrow).

#[global] Instance pyrow_eq_dec : EqDecision pyrow.
Proof. solve_decision. Defined.

Definition is_dict (r : pyrow) : Prop :=
  match r with RowDict _ => True | RowList _ => False end.

#[global] Instance is_dict_dec r : Decision (is_dict r).
Proof. destruct r; simpl; apply _. Defined.

(** [for i in range(len(input)): if isinstance(input[i], dict):
    input[i] = list(input[i].values())], on the list object [input]. *)
Definition replace_dict_at (input : list pyrow) (i : nat) : list pyrow :=
  match input !! i with
  | Some (RowDict d) => <[i := RowList (dict_values d)]> input
  | _ => input
  end.
Definition replace_dicts (input : list pyrow) : list pyrow :=
  foldl replace_dict_at input (seq 0 (length input)).

(** [np.array(input)] on a list of rows.  numpy reads the elements that
    are lists as the rows of the table.  A dict is not a sequence for
    numpy: a list that still holds one does not give a table of numbers
    ([Outside_object_array]).  [matrix_from] calls [np.array] after its
    loop, when every element is a list ([replace_dicts_no_dict] below). *)
Definition pyrow_as_list (r : pyrow) : option (list Z) :=
  match r with
  | RowList l => Some l
  | RowDict _ => None
  end.

Definition np_array_of_rows (input : list pyrow) : result ndarray :=
  match mapM pyrow_as_list input with
  | Some rows => np_array rows
  | None => Raise Outside_object_array
  end.

(** [matrix_from(input)].  A list argument is updated in place, so the
    function returns the state of the caller's argument after the call
    together with the outcome.  For a dict argument the loop runs on the
    fresh list [list(input.values())], and the dict itself is not touched. *)
Definition matrix_from (input : pyinput) : pyinput * result ValuationMatrix :=
  match input with
  | InMatrix m => (input, Ok m)
  | InDict d =>
      let l := replace_dicts (dict_values d) in
      (input, a ← np_array_of_rows l; Ok (ValuationMatrix_init a))
  | InList l =>
      let l := replace_dicts l in
      (InList l, a ← np_array_of_rows l; Ok (ValuationMatrix_init a))
  | InArray a => (input, Ok (ValuationMatrix_init a))
  end.

(** ** Bag and SequentialAllocation ([fairpy.items.bag_filling]) *)

(** Modelled from the spec: the class [Bag] of [fairpy.items.bag_filling]
    (spec section 4.4), a module that [one_of_threehalves_mms.py] imports
    and whose source is not among the files at hand.  A bag holds the
    matrix, the thresholds and the objects put in so far. *)
Record Bag : Type := mkBag {
  bag_valuation_matrix : ValuationMatrix;
  bag_thresholds : list Z;
  bag_objects : list Z
}.

Definition Bag_init (valuation_matrix : ValuationMatrix) (thresholds : list Z) : Bag :=
  mkBag valuation_matrix thresholds [].

(** Modelled from the spec: [Bag.append] adds one item unconditionally. *)
Definition Bag_append (bag : Bag) (item : Z) : Bag :=
  mkBag (bag_valuation_matrix bag) (bag_thresholds bag) (bag_objects bag ++ [item]).

(** Modelled from the spec: [Bag.reset] empties the bag and keeps the
    matrix and the thresholds.  A bundle that [fill] returned before the
    reset keeps its objects (the bundles of the doctest are not empty), so
    lists are values here and no store is needed. *)
Definition Bag_reset (bag : Bag) : Bag :=
  mkBag (bag_valuation_matrix bag) (bag_thresholds bag) [].

(** Modelled from the spec: the test inside [Bag.fill], the first agent in
    the order of [candidate_agents] that values the bag at or above its
    threshold. *)
Fixpoint Bag_willing_agent (bag : Bag) (candidate_agents : list Z) : result (option Z) :=
  match candidate_agents with
  | [] => Ok None
  | agent :: rest =>
      value ← agent_value_for_bundle (bag_valuation_matrix bag) agent
                (Some (bag_objects bag));
      threshold ← py_getitem (bag_thresholds bag) agent;
      if decide (threshold ≤ value) then Ok (Some agent)
      else Bag_willing_agent bag rest
  end.

(** Modelled from the spec: [Bag.fill] takes the next candidate item, adds
    it, and tests the agents; it returns at the first agent that qualifies,
    and with no agent once the items run out, in both cases with the
    contents of the bag.  The bag is updated in place, so its new state is
    returned as well. *)
Fixpoint Bag_fill (bag : Bag) (candidate_items candidate_agents : list Z)
    : result (Bag * (option Z * list Z)) :=
  match candidate_items with
  | [] => Ok (bag, (None, bag_objects bag))
  | item :: rest =>
      let bag := Bag_append bag item in
      willing ← Bag_willing_agent bag candidate_agents;
      match willing with
      | Some agent => Ok (bag, (Some agent, bag_objects bag))
      | None => Bag_fill bag rest candidate_agents
      end
  end.

(** Modelled from the spec: the class [SequentialAllocation] of
    [fairpy.items.bag_filling] (spec section 4.3): the objects and agents
    that remain, in their original order, and the partial map from agents
    to finished bundles. *)
Record SequentialAllocation : Type := mkSequentialAllocation {
  remaining_objects : list Z;
  remaining_agents : list Z;
  bundles : gmap Z (list Z)
}.

Definition SequentialAllocation_init (agents objects : list Z) : SequentialAllocation :=
  mkSequentialAllocation objects agents ∅.

Fixpoint py_remove_all (l : list Z) (xs : list Z) : result (list Z) :=
  match xs with
  | [] => Ok l
  | x :: xs' => l' ← py_remove l x; py_remove_all l' xs'
  end.

(** Modelled from the spec: [let_agent_get_objects] records the bundle,
    removes the agent from the remaining agents and every object of the
    bundle from the remaining objects, and fails on an agent or object that
    does not remain. *)
Definition let_agent_get_objects (self : SequentialAllocation) (agent : Z)
    (objects : list Z) : result SequentialAllocation :=
  agents' ← py_remove (remaining_agents self) agent;
  objects' ← py_remove_all (remaining_objects self) objects;
  Ok (mkSequentialAllocation objects' agents' (<[agent := objects]> (bundles self))).

(** Modelled from the spec: the result type [Allocation] of
    [fairpy.allocations], as the spec's data model has it: every agent of
    the matrix mapped to its bundle, or to no bundle ([None]). *)
Record Allocation : Type := mkAllocation {
  allocation_matrix : ValuationMatrix;
  allocation_bundles : list (option (list Z))
}.

Definition Allocation_init (valuation_matrix : ValuationMatrix)
    (bundles : gmap Z (list Z)) : Allocation :=
  mkAllocation valuation_matrix ((λ agent, bundles !! agent) <$> agents valuation_matrix).

(** The value each agent has for its own bundle, as the printed form of an
    allocation reports it. *)
Definition Allocation_values (self : Allocation) : result (list Z) :=
  mapM (λ p : Z * option (list Z),
          agent_value_for_bundle (allocation_matrix self) p.1 p.2)
       (zip (agents (allocation_matrix self)) (allocation_bundles self)).

(** A bundle is a set of objects. *)
Definition bundle_set (bundle : option (list Z)) : option (gset Z) :=
  list_to_set <$> bundle.

(** ** bidirectional_bag_filling *)

(** The [while True] loop.  Every round that does not leave the loop
    removes the first remaining object, so the loop runs at most once per
    object; [fuel] bounds the number of rounds and [None] means the bound
    was too small ([bag_filling_loop_fuel] shows it never is). *)
Fixpoint bag_filling_loop (fuel : nat) (allocation : SequentialAllocation) (bag : Bag)
    : option (result SequentialAllocation) :=
  match fuel with
  | O => None
  | S fuel' =>
      match remaining_objects allocation with
      | [] => Some (Ok allocation)
      | highest_valued_object :: others =>
          let bag := Bag_append bag highest_valued_object in
          let lowest_valued_objects := reverse others in
          match Bag_fill bag lowest_valued_objects (remaining_agents allocation) with
          | Raise e => Some (Raise e)
          | Ok (bag, (None, _)) => Some (Ok allocation)
          | Ok (bag, (Some willing_agent, allocated_objects)) =>
              match let_agent_get_objects allocation willing_agent allocated_objects with
              | Raise e => Some (Raise e)
              | Ok allocation => bag_filling_loop fuel' allocation (Bag_reset bag)
              end
          end
      end
  end.

Definition bidirectional_bag_filling (valuation_matrix : pyinput) (thresholds : list Z)
    : option (result Allocation) :=
  match (matrix_from valuation_matrix).2 with
  | Raise e => Some (Raise e)
  | Ok valuation_matrix =>
      match verify_ordered valuation_matrix with
      | Raise e => Some (Raise e)
      | Ok _ =>
          if decide (Z.of_nat (length thresholds) ≠ num_of_agents valuation_matrix) then
            Some (Raise (ValueError_thresholds (num_of_agents valuation_matrix)
                           (Z.of_nat (length thresholds))))
          else
            let allocation :=
              SequentialAllocation_init (agents valuation_matrix) (objects valuation_matrix) in
            let bag := Bag_init valuation_matrix thresholds in
            r ← bag_filling_loop (S (length (objects valuation_matrix))) allocation bag;
            Some (allocation ← r; Ok (Allocation_init valuation_matrix (bundles allocation)))
      end
  end.

(** ** Agent *)

Section Agent.

(** The valuation classes live in [fairpy.indivisible.valuations], whose
    source is not among the files at hand: an agent is parametric in the
    type of valuations and in their [__repr__]. *)
Context {Valuation : Type} (Valuation_repr : Valuation → string).

Record Agent : Type := mkAgent {
  valuation : Valuation;
  _name : option string;
  duplicity : Z
}.

Definition name (self : Agent) : string :=
  match _name self with
  | Some n => n
  | None => "Anonymous"
  end.

Definition Agent_repr (self : Agent) : string :=
  if decide (duplicity self = 1) then
    name self +:+ " is an agent with a " +:+ Valuation_repr (valuation self)
  else
    name self +:+ " are " +:+ pretty (duplicity self) +:+ " agents with a "
      +:+ Valuation_repr (valuation self).

End Agent.

(** ** Vocabulary of the properties *)

(** The exact sum of a list of integers. *)
Definition Zsum (l : list Z) : Z := foldr Z.add 0 l.

(** A row is ordered when its values never go up from one object to the next. *)
Definition nonincreasing (row : list Z) : Prop :=
  ∀ (j : nat) (a b : Z), row !! j = Some a → row !! S j = Some b → b ≤ a.

(** What the constructor establishes for a rectangular table: the two
    counts agree with the shape of [_v]. *)
Definition wf_matrix (self : ValuationMatrix) : Prop :=
  num_of_agents self = Z.of_nat (length (_v self))
  ∧ ∀ row, row ∈ _v self → Z.of_nat (length row) = num_of_objects self.

(** A row has an ascent when some value is below the next one:
    [v_i[j] < v_i[j+1]], the test of [verify_ordered]. *)
Definition has_ascent (row : list Z) : Prop :=
  ∃ (j : nat) (a b : Z), row !! j = Some a ∧ row !! S j = Some b ∧ a < b.

(** The exceptions the allocation loop itself can raise. *)
Definition loop_exn (e : exn) : Prop := e = IndexError ∨ e = ValueError_remove.

(** The instance of the doctest of [bidirectional_bag_filling]:
    [matrix_from(3*[identical_valuations])]. *)
Definition identical_valuations : list Z := [97; 96; 90; 12; 3; 2; 1; 1; 1].
Definition three_identical_agents : pyinput :=
  InList (RowList <$> replicate 3 identical_valuations).

(** The invariant of the loop of [bidirectional_bag_filling]: at the head
    of every round the bag is empty, and the remaining agents and objects
    are indices of the matrix, the objects without repetition. *)
Record loop_state_ok (m : ValuationMatrix) (thresholds : list Z)
    (allocation : SequentialAllocation) (bag : Bag) : Prop := {
  ok_matrix : bag_valuation_matrix bag = m;
  ok_thresholds : bag_thresholds bag = thresholds;
  ok_empty : bag_objects bag = [];
  ok_agents : Forall (λ agent, 0 ≤ agent < num_of_agents m) (remaining_agents allocation);
  ok_objects : Forall (λ object, 0 ≤ object < num_of_objects m) (remaining_objects allocation);
  ok_distinct : NoDup (remaining_objects allocation)
}.

(** The least common multiple of the totals, computed in [Z]. *)
Definition lcm_of_totals (totals : list Z) : Z :=
  match totals with
  | [] => 1
  | t :: ts => foldl Z.lcm t ts
  end.

(** What the loop of [matrix_from] leaves in place of an element. *)
Definition dict_as_list (r : pyrow) : pyrow :=
  match r with
  | RowList l => RowList l
  | RowDict d => RowList (dict_values d)
  end.

(** A store extends another when everything allocated in the first is
    still there, with the same contents: arrays and objects may have been
    added, and nothing was overwritten. *)
Definition extends (s s' : Object.store) : Prop :=
  Object.arrays s `prefix_of` Object.arrays s'
  ∧ Object.instances s `prefix_of` Object.instances s'.

(** A program that reads and allocates, and writes to nothing that was
    there before it ran. *)
Definition allocates_only {A} (p : Object.M A) : Prop :=
  ∀ s, extends s (p s).1.

(** The object at [self] and the array it refers to are in the store. *)
Definition allocated (s : Object.store) (self : nat) : Prop :=
  (self < length (Object.instances s))%nat
  ∧ (Object.self_v (Object.instances s !!! self) < length (Object.arrays s))%nat.

(** The values of one agent's entry, in insertion order. *)
Definition pyrow_items (r : pyrow) : list Z :=
  match r with
  | RowList l => l
  | RowDict d => dict_values d
  end.

(** ** Vocabulary of the further properties *)

(** An index that Python accepts on an axis of length [n], and the position
    it denotes: a negative index counts from the end. *)
Definition valid_index (n : nat) (i : Z) : Prop := - Z.of_nat n ≤ i < Z.of_nat n.
Definition position (n : nat) (i : Z) : nat :=
  Z.to_nat (if decide (i < 0) then i + Z.of_nat n else i).

(** A table of non-negative entries whose exact row totals are positive
    and fit in 64 bits. *)
Definition exact_rows (v : ndarray) : Prop :=
  Forall (λ row, Forall (λ x, 0 ≤ x) row ∧ 0 < Zsum row ≤ Int64.max_signed) v.

(** The table [normalize] computes when nothing wraps: every entry of a row
    times the common total [L] over the row total. *)
Definition scaled_rows (L : Z) (v : ndarray) : ndarray :=
  (λ row, (λ x, x * (L `div` Zsum row)) <$> row) <$> v.

(** * Properties *)

(** ** int64 arithmetic *)

Module Int64Facts.
Import Int64.

Lemma wrap_in_range z : in_range z → wrap z = z.
Proof.
  unfold in_range, min_signed, max_signed, wrap. intros Hz.
  rewrite Z.mod_small; lia.
Qed.

Lemma wrap_range z : in_range (wrap z).
Proof.
  unfold in_range, min_signed, max_signed, wrap.
  pose proof (Z.mod_pos_bound (z + 2 ^ 63) (2 ^ 64)). lia.
Qed.

Lemma wrap_mod z : wrap z `mod` 2 ^ 64 = z `mod` 2 ^ 64.
Proof. unfold wrap. rewrite Zminus_mod_idemp_l. f_equal. lia. Qed.

Lemma wrap_congr a b : a `mod` 2 ^ 64 = b `mod` 2 ^ 64 → wrap a = wrap b.
Proof.
  intros H. unfold wrap. f_equal.
  rewrite <-(Zplus_mod_idemp_l a), <-(Zplus_mod_idemp_l b). by rewrite H.
Qed.

Lemma wrap_add_l a b : wrap (wrap a + b) = wrap (a + b).
Proof.
  apply wrap_congr. rewrite <-Zplus_mod_idemp_l, wrap_mod.
  by rewrite Zplus_mod_idemp_l.
Qed.

Lemma wrap_mul_l a b : wrap (wrap a * b) = wrap (a * b).
Proof.
  apply wrap_congr. rewrite <-Zmult_mod_idemp_l, wrap_mod.
  by rewrite Zmult_mod_idemp_l.
Qed.

End Int64Facts.

Lemma foldl_add_wrap (a : Z) (l : list Z) :
  foldl Int64.add (Int64.wrap a) l = Int64.wrap (a + Zsum l).
Proof.
  revert a. induction l as [|x l IH]; intros a; simpl.
  - f_equal. lia.
  - unfold Int64.add at 2. rewrite Int64Facts.wrap_add_l, IH. f_equal. lia.
Qed.

Lemma py_sum_wrap (l : list Z) : py_sum l = Int64.wrap (Zsum l).
Proof. apply (foldl_add_wrap 0). Qed.

Lemma py_sum_exact (l : list Z) : Int64.in_range (Zsum l) → py_sum l = Zsum l.
Proof. intros. rewrite py_sum_wrap. by apply Int64Facts.wrap_in_range. Qed.

(** ** Indexing and the error monad *)

Lemma py_getitem_lookup {A} (l : list A) (i : nat) (x : A) :
  l !! i = Some x → py_getitem l (Z.of_nat i) = Ok x.
Proof.
  intros Hi. pose proof (lookup_lt_Some _ _ _ Hi) as Hlt.
  unfold py_getitem; cbv zeta.
  destruct (decide (Z.of_nat i < 0)) as [?|_]; [lia|].
  rewrite decide_True by lia. by rewrite Nat2Z.id, Hi.
Qed.

Lemma py_getitem_in_range {A} (l : list A) (i : Z) :
  0 ≤ i < Z.of_nat (length l) → ∃ x, l !! Z.to_nat i = Some x ∧ py_getitem l i = Ok x.
Proof.
  intros Hi. destruct (lookup_lt_is_Some_2 l (Z.to_nat i)) as [x Hx]; [lia|].
  exists x. split; [done|]. rewrite <-(Z2Nat.id i) by lia. by apply py_getitem_lookup.
Qed.

Lemma py_getitem_Raise {A} (l : list A) (i : Z) e :
  py_getitem l i = Raise e → e = IndexError.
Proof.
  unfold py_getitem. repeat case_decide; try destruct (l !! _); congruence.
Qed.

Lemma elem_of_range (n j : Z) : j ∈ range n ↔ 0 ≤ j < n.
Proof.
  unfold range. rewrite list_elem_of_fmap. split.
  - intros (k & -> & Hk). apply elem_of_seq in Hk. lia.
  - intros Hj. exists (Z.to_nat j). split; [lia|]. apply elem_of_seq. lia.
Qed.

Lemma mapM_result_Ok {A B} (f : A → result B) (l : list A) (k : list B) :
  Forall2 (λ x y, f x = Ok y) l k → mapM f l = Ok k.
Proof.
  induction 1 as [|x y l k Hx _ IH]; [done|].
  simpl. rewrite Hx. simpl. rewrite IH. done.
Qed.

(** ** agent_value_for_bundle *)

Lemma agent_value_for_bundle_Ok self agent row bundle values :
  py_getitem (_v self) agent = Ok row →
  Forall2 (λ object value, py_getitem row object = Ok value) bundle values →
  agent_value_for_bundle self agent (Some bundle) = Ok (py_sum values).
Proof.
  intros Hrow Hvalues. simpl. erewrite mapM_result_Ok; [done|].
  eapply Forall2_impl; [exact Hvalues|]. intros o x Ho. simpl. by rewrite Hrow.
Qed.

(** C8, as stated, fails on int64 values whose sum does not fit in 64
    bits: the sum wraps around.  On the row [2^63 - 1, 1, 5] the bundle
    [0, 1] has the sum 2^63 and the method returns -2^63. *)
Lemma agent_value_for_bundle_wraps :
  int64_array [[2 ^ 63 - 1; 1; 5]]
  ∧ agent_value_for_bundle (ValuationMatrix_init [[2 ^ 63 - 1; 1; 5]]) 0 (Some [0; 1])
    = Ok (- 2 ^ 63)
  ∧ Zsum [2 ^ 63 - 1; 1] = 2 ^ 63.
Proof.
  split_and!; [split| |]; try reflexivity.
  - intros r r' Hr Hr'. set_unfold. by destruct Hr as [->|[]], Hr' as [->|[]].
  - repeat constructor; by vm_compute.
Qed.

(** C8, amended.  On an int64 table, for an agent index that denotes the
    row [row] and a bundle whose object indices denote the values [values]
    in that row, [agent_value_for_bundle] returns the sum of these values
    modulo 2^64, in two's complement; this is their sum whenever the sum
    fits in 64 bits.  For the bundle [None] it returns 0. *)
Theorem agent_value_for_bundle_sum (self : ValuationMatrix) (agent : Z)
    (row bundle values : list Z) :
  int64_array (_v self) →
  py_getitem (_v self) agent = Ok row →
  Forall2 (λ object value, py_getitem row object = Ok value) bundle values →
  agent_value_for_bundle self agent (Some bundle) = Ok (Int64.wrap (Zsum values))
  ∧ (Int64.in_range (Zsum values) →
     agent_value_for_bundle self agent (Some bundle) = Ok (Zsum values))
  ∧ agent_value_for_bundle self agent None = Ok 0.
Proof.
  intros _ Hrow Hvalues.
  pose proof (agent_value_for_bundle_Ok self agent row bundle values Hrow Hvalues) as H.
  split_and!.
  - by rewrite H, py_sum_wrap.
  - intros Hfit. by rewrite H, py_sum_exact.
  - done.
Qed.

Lemma agent_value_for_bundle_sum_witness :
  agent_value_for_bundle (ValuationMatrix_init [[1; 4; 7]; [6; 3; 0]]) 1 (Some [1; 0])
    = Ok 9
  ∧ agent_value_for_bundle (ValuationMatrix_init [[1; 4; 7]; [6; 3; 0]]) 1 None = Ok 0.
Proof.
  assert (int64_array (_v (ValuationMatrix_init [[1; 4; 7]; [6; 3; 0]]))) as Hint.
  { split.
    - intros r r' Hr Hr'. set_unfold.
      by destruct Hr as [->|[->|[]]], Hr' as [->|[->|[]]].
    - repeat constructor; by vm_compute. }
  destruct (agent_value_for_bundle_sum
              (ValuationMatrix_init [[1; 4; 7]; [6; 3; 0]]) 1 [6; 3; 0] [1; 0] [3; 6] Hint)
    as (_ & Hexact & Hnone); [reflexivity|repeat constructor|].
  split; [|exact Hnone]. apply Hexact. by vm_compute.
Defined.

(** The doctests of the class [ValuationMatrix]. *)
Example ValuationMatrix_doctest :
  getitem (ValuationMatrix_init [[1; 4; 7]; [6; 3; 0]]) (0, 1) = Ok 4
  ∧ getitem_row (ValuationMatrix_init [[1; 4; 7]; [6; 3; 0]]) 0 = Ok [1; 4; 7]
  ∧ agent_value_for_bundle (ValuationMatrix_init [[1; 4; 7]; [6; 3; 0]]) 0 (Some [0; 2])
    = Ok 8
  ∧ without_agent (ValuationMatrix_init [[1; 4; 7]; [6; 3; 0]]) 0
    = Ok (ValuationMatrix_init [[6; 3; 0]])
  ∧ without_object (ValuationMatrix_init [[1; 4; 7]; [6; 3; 0]]) 1
    = Ok (ValuationMatrix_init [[1; 7]; [6; 0]]).
Proof. by split_and!. Qed.

(** ** Agent.__repr__ *)

(** C9.  The printed form of an agent tells one agent from several: with
    duplicity 1 it is "<name> is an agent with a <valuation>", and with a
    duplicity above 1 it is "<name> are <duplicity> agents with a
    <valuation>", where <name> is the agent's name or "Anonymous". *)
Theorem Agent_repr_singular_plural {Valuation : Type}
    (Valuation_repr : Valuation → string) (self : Agent) :
  (duplicity self = 1 →
     Agent_repr Valuation_repr self
     = name self +:+ " is an agent with a " +:+ Valuation_repr (valuation self))
  ∧ (1 < duplicity self →
     Agent_repr Valuation_repr self
     = name self +:+ " are " +:+ pretty (duplicity self) +:+ " agents with a "
         +:+ Valuation_repr (valuation self))
  ∧ (name self = match _name self with Some n => n | None => "Anonymous" end).
Proof.
  unfold Agent_repr. split_and!; [intros H|intros H|done].
  - by rewrite decide_True.
  - by rewrite decide_False by lia.
Qed.

Lemma Agent_repr_singular_plural_witness :
  Agent_repr (λ s : string, s) (mkAgent "Additive valuation: x=1 y=2 z=4." (Some "Alice") 1)
    = "Alice is an agent with a Additive valuation: x=1 y=2 z=4."
  ∧ Agent_repr (λ s : string, s) (mkAgent "Additive valuation: x=1 y=2 z=4." None 2)
    = "Anonymous are 2 agents with a Additive valuation: x=1 y=2 z=4.".
Proof.
  split.
  - apply (Agent_repr_singular_plural (λ s : string, s)
             (mkAgent "Additive valuation: x=1 y=2 z=4." (Some "Alice") 1)).
    reflexivity.
  - apply (Agent_repr_singular_plural (λ s : string, s)
             (mkAgent "Additive valuation: x=1 y=2 z=4." None 2)).
    simpl. lia.
Defined.

(** ** matrix_from *)

Lemma replace_dict_at_middle (pre suf : list pyrow) (r : pyrow) :
  replace_dict_at (pre ++ r :: suf) (length pre) = pre ++ dict_as_list r :: suf.
Proof.
  unfold replace_dict_at.
  rewrite list_lookup_middle by done.
  destruct r as [l|d]; simpl; [done|].
  rewrite insert_app_r_alt by lia. by rewrite Nat.sub_diag.
Qed.

Lemma replace_dicts_from (pre suf : list pyrow) :
  foldl replace_dict_at (pre ++ suf) (seq (length pre) (length suf))
  = pre ++ (dict_as_list <$> suf).
Proof.
  revert pre. induction suf as [|r suf IH]; intros pre; simpl; [done|].
  rewrite replace_dict_at_middle.
  rewrite (cons_middle (dict_as_list r) pre suf), (assoc_L (++)).
  replace (S (length pre)) with (length (pre ++ [dict_as_list r]))
    by (rewrite length_app; simpl; lia).
  rewrite IH. by rewrite <-app_assoc.
Qed.

Lemma replace_dicts_spec (input : list pyrow) :
  replace_dicts input = dict_as_list <$> input.
Proof. apply (replace_dicts_from [] input). Qed.

Lemma replace_dicts_no_dict (input : list pyrow) :
  Forall (λ r, ¬ is_dict r) (replace_dicts input).
Proof.
  rewrite replace_dicts_spec. apply Forall_fmap, Forall_true.
  intros []; simpl; tauto.
Qed.

Lemma mapM_pyrow_as_list (l : list pyrow) :
  mapM pyrow_as_list (dict_as_list <$> l) = Some (pyrow_items <$> l).
Proof.
  apply mapM_Some. induction l as [|r l IH]; csimpl; constructor; [|done].
  by destruct r.
Qed.

Lemma np_array_of_rows_dict_as_list (l : list pyrow) :
  np_array_of_rows (dict_as_list <$> l) = np_array (pyrow_items <$> l).
Proof. unfold np_array_of_rows. by rewrite mapM_pyrow_as_list. Qed.

Lemma matrix_from_list (l : list pyrow) :
  (matrix_from (InList l)).2 = ValuationMatrix_of_list (pyrow_items <$> l).
Proof.
  simpl. by rewrite replace_dicts_spec, np_array_of_rows_dict_as_list.
Qed.

Lemma matrix_from_dict (d : pydict string pyrow) :
  (matrix_from (InDict d)).2 = ValuationMatrix_of_list (pyrow_items <$> dict_values d).
Proof.
  simpl. by rewrite replace_dicts_spec, np_array_of_rows_dict_as_list.
Qed.

(** The only error of [matrix_from] is the one [np.array] raises on rows
    of different lengths; in particular the array it builds is never an
    array of dicts. *)
Lemma matrix_from_Raise (input : pyinput) (e : exn) :
  (matrix_from input).2 = Raise e → e = ValueError_inhomogeneous.
Proof.
  assert (∀ rows, ValuationMatrix_of_list rows = Raise e → e = ValueError_inhomogeneous)
    as Hrows.
  { intros rows. unfold ValuationMatrix_of_list, np_array.
    destruct rows as [|r rows]; [done|]. case_decide; [done|]. by intros [= <-]. }
  destruct input as [m|a|l|d]; [done|done|..].
  - rewrite matrix_from_list. apply Hrows.
  - rewrite matrix_from_dict. apply Hrows.
Qed.

Lemma np_array_Ok (rows : list (list Z)) :
  rectangular rows → np_array rows = Ok rows.
Proof.
  intros Hrect. unfold np_array. destruct rows as [|r rows]; [done|].
  rewrite decide_True; [done|]. apply Forall_forall. intros r' Hr'.
  apply Hrect; [by apply list_elem_of_further|apply list_elem_of_here].
Qed.

Lemma np_array_Raise (rows : list (list Z)) :
  ¬ rectangular rows → np_array rows = Raise ValueError_inhomogeneous.
Proof.
  intros Hrect. unfold np_array. destruct rows as [|r rows].
  - destruct Hrect. intros r r' Hr. by apply elem_of_nil in Hr.
  - case_decide as Hall; [|done]. destruct Hrect.
    rewrite Forall_forall in Hall. intros r1 r2 Hr1 Hr2.
    assert (∀ r', r' ∈ r :: rows → length r' = length r) as Hlen.
    { intros r' [->|Hr']%elem_of_cons; [done|by apply Hall]. }
    by rewrite (Hlen r1 Hr1), (Hlen r2 Hr2).
Qed.

Lemma dict_as_list_id (l : list pyrow) :
  Forall (λ r, ¬ is_dict r) l → dict_as_list <$> l = l.
Proof.
  induction 1 as [|r l Hr _ IH]; csimpl; [done|].
  rewrite IH. by destruct r; [|destruct Hr].
Qed.

Lemma dict_as_list_changes (l : list pyrow) :
  Exists is_dict l → dict_as_list <$> l ≠ l.
Proof.
  induction 1 as [r l Hr|r l _ IH]; csimpl; intros Heq.
  - injection Heq as Hr' _. by destruct r.
  - injection Heq as _ Hl. by apply IH.
Qed.

(** C10.  On a list argument [matrix_from] leaves, in the caller's list,
    the list of values in place of every dict element: the list is changed
    by the call when it holds a dict, and is unchanged when it holds none. *)
Theorem matrix_from_mutates_list (l : list pyrow) :
  (matrix_from (InList l)).1 = InList (dict_as_list <$> l)
  ∧ (Exists is_dict l → (matrix_from (InList l)).1 ≠ InList l)
  ∧ (Forall (λ r, ¬ is_dict r) l → (matrix_from (InList l)).1 = InList l).
Proof.
  simpl. rewrite replace_dicts_spec. split_and!; [done| |].
  - intros H Heq. simplify_eq. by eapply dict_as_list_changes.
  - intros H. by rewrite dict_as_list_id.
Qed.

Lemma matrix_from_mutates_list_witness :
  (matrix_from (InList [RowDict [("x", 1); ("y", 2)]; RowList [3; 4]])).1
    ≠ InList [RowDict [("x", 1); ("y", 2)]; RowList [3; 4]]
  ∧ (matrix_from (InList [RowList [1; 2]; RowList [3; 4]])).1
    = InList [RowList [1; 2]; RowList [3; 4]].
Proof.
  split.
  - apply (matrix_from_mutates_list [RowDict [("x", 1); ("y", 2)]; RowList [3; 4]]).
    apply Exists_cons_hd. exact I.
  - apply (matrix_from_mutates_list [RowList [1; 2]; RowList [3; 4]]).
    repeat constructor; simpl; tauto.
Defined.

(** C7.  The four accepted input forms build the same table, in insertion
    order.  Let [rows] be rows of int64 values, [by_agent] a dict from
    agent labels to lists whose values, in insertion order, are [rows], and
    [by_agent_and_item] a dict from agent labels to dicts from item labels
    to values whose inner values, in insertion order, are [rows].  When the
    rows have one length, [matrix_from] of the array with these rows, of
    the list of lists, and of the two dicts returns one matrix, whose table
    is [rows] and whose counts are the number of rows and the length of
    every row.  When the rows differ in length no array exists, and the
    list and the two dicts are refused alike. *)
Theorem matrix_from_forms (rows : list (list Z))
    (by_agent : pydict string (list Z))
    (by_agent_and_item : pydict string (pydict string Z)) :
  Forall (Forall Int64.in_range) rows →
  dict_values by_agent = rows →
  dict_values <$> dict_values by_agent_and_item = rows →
  (rectangular rows →
     ∃ m, (matrix_from (InArray rows)).2 = Ok m
       ∧ (matrix_from (InList (RowList <$> rows))).2 = Ok m
       ∧ (matrix_from (InDict (prod_map id RowList <$> by_agent))).2 = Ok m
       ∧ (matrix_from (InDict (prod_map id RowDict <$> by_agent_and_item))).2 = Ok m
       ∧ _v m = rows
       ∧ num_of_agents m = Z.of_nat (length rows)
       ∧ (∀ row, row ∈ rows → num_of_objects m = Z.of_nat (length row)))
  ∧ (¬ rectangular rows →
       (matrix_from (InList (RowList <$> rows))).2 = Raise ValueError_inhomogeneous
       ∧ (matrix_from (InDict (prod_map id RowList <$> by_agent))).2
         = Raise ValueError_inhomogeneous
       ∧ (matrix_from (InDict (prod_map id RowDict <$> by_agent_and_item))).2
         = Raise ValueError_inhomogeneous).
Proof.
  intros _ Hlists Hdicts.
  assert (pyrow_items <$> (RowList <$> rows) = rows) as Hlist.
  { rewrite <-list_fmap_compose, (list_fmap_ext _ id rows) by done.
    apply list_fmap_id. }
  assert (pyrow_items <$> dict_values (prod_map id RowList <$> by_agent) = rows)
    as Hby_agent.
  { rewrite <-Hlists. unfold dict_values. rewrite <-!list_fmap_compose.
    apply list_fmap_ext. by intros _ [] _. }
  assert (pyrow_items <$> dict_values (prod_map id RowDict <$> by_agent_and_item) = rows)
    as Hby_item.
  { rewrite <-Hdicts. unfold dict_values. rewrite <-!list_fmap_compose.
    apply list_fmap_ext. by intros _ [] _. }
  rewrite matrix_from_list, !matrix_from_dict, Hlist, Hby_agent, Hby_item.
  unfold ValuationMatrix_of_list. split; intros Hrect.
  - rewrite (np_array_Ok _ Hrect). exists (ValuationMatrix_init rows).
    split_and!; try done.
    intros row Hrow. unfold ValuationMatrix_init. cbn [num_of_objects].
    destruct rows as [|r rows']; [by apply elem_of_nil in Hrow|].
    rewrite decide_False by (simpl; lia). f_equal.
    apply Hrect; [apply list_elem_of_here|done].
  - by rewrite (np_array_Raise _ Hrect).
Qed.

Lemma matrix_from_forms_witness :
  (matrix_from (InArray [[1; 2; 3]; [4; 5; 6]])).2
    = Ok (mkValuationMatrix [[1; 2; 3]; [4; 5; 6]] 2 3)
  ∧ (matrix_from (InList [RowList [1; 2; 3]; RowList [4; 5; 6]])).2
    = Ok (mkValuationMatrix [[1; 2; 3]; [4; 5; 6]] 2 3)
  ∧ (matrix_from (InDict [("a", RowList [1; 2; 3]); ("b", RowList [4; 5; 6])])).2
    = Ok (mkValuationMatrix [[1; 2; 3]; [4; 5; 6]] 2 3)
  ∧ (matrix_from (InDict [("a", RowDict [("x", 1); ("y", 2); ("z", 3)]);
                           ("b", RowDict [("x", 4); ("y", 5); ("z", 6)])])).2
    = Ok (mkValuationMatrix [[1; 2; 3]; [4; 5; 6]] 2 3).
Proof.
  destruct (matrix_from_forms [[1; 2; 3]; [4; 5; 6]]
              [("a", [1; 2; 3]); ("b", [4; 5; 6])]
              [("a", [("x", 1); ("y", 2); ("z", 3)]);
               ("b", [("x", 4); ("y", 5); ("z", 6)])])
    as [Hsame _]; [repeat constructor; by vm_compute|reflexivity|reflexivity|].
  destruct Hsame as (m & Harray & Hlist & Hby_agent & Hby_item & _).
  { intros r r' Hr Hr'. set_unfold.
    by destruct Hr as [->|[->|[]]], Hr' as [->|[->|[]]]. }
  assert (Ok m = Ok (mkValuationMatrix [[1; 2; 3]; [4; 5; 6]] 2 3)) as [= ->].
  { by rewrite <-Harray. }
  done.
Defined.

(** ** verify_ordered *)

Lemma nonincreasing_no_ascent (row : list Z) :
  nonincreasing row ↔ ¬ has_ascent row.
Proof.
  split.
  - intros Hrow (j & a & b & Ha & Hb & Hlt). specialize (Hrow j a b Ha Hb). lia.
  - intros Hno j a b Ha Hb. destruct (decide (a < b)) as [Hlt|]; [|lia].
    destruct Hno. by exists j, a, b.
Qed.

Lemma any_ascent_seq (v_i : list Z) (s k : nat) :
  (s + k < length v_i ∨ k = 0)%nat →
  ∃ b : bool, any_ascent v_i (Z.of_nat <$> seq s k) = Ok b ∧
    (b = true ↔ ∃ (j : nat) (x y : Z),
        (s ≤ j < s + k)%nat ∧ v_i !! j = Some x ∧ v_i !! S j = Some y ∧ x < y).
Proof.
  revert s. induction k as [|k IH]; intros s Hlen.
  - exists false. split; [done|]. split; [done|]. intros (j & ? & ? & ? & _). lia.
  - destruct Hlen as [Hlen|]; [|lia]. csimpl.
    destruct (lookup_lt_is_Some_2 v_i s) as [x Hx]; [lia|].
    destruct (lookup_lt_is_Some_2 v_i (S s)) as [y Hy]; [lia|].
    rewrite (py_getitem_lookup _ _ _ Hx). simpl.
    replace (Z.of_nat s + 1) with (Z.of_nat (S s)) by lia.
    rewrite (py_getitem_lookup _ _ _ Hy). simpl.
    destruct (decide (x < y)) as [Hlt|Hge].
    + exists true. split; [done|]. split; [|done]. intros _.
      exists s, x, y. split_and!; [lia|lia|done..].
    + destruct (IH (S s)) as (b & Hb & Hiff); [lia|].
      exists b. split; [done|]. rewrite Hiff. split.
      * intros (j & x' & y' & ? & ?). exists j, x', y'. split; [lia|done].
      * intros (j & x' & y' & ? & Hx' & Hy' & ?).
        destruct (decide (j = s)) as [->|]; [simplify_eq; lia|].
        exists j, x', y'. split; [lia|done].
Qed.

Lemma any_ascent_range (v_i : list Z) :
  ∃ b : bool, any_ascent v_i (range (Z.of_nat (length v_i) - 1)) = Ok b ∧
    (b = true ↔ has_ascent v_i).
Proof.
  unfold range.
  replace (Z.to_nat (Z.of_nat (length v_i) - 1)) with (length v_i - 1)%nat by lia.
  destruct (any_ascent_seq v_i 0 (length v_i - 1)) as (b & Hb & Hiff); [lia|].
  exists b. split; [done|]. rewrite Hiff. unfold has_ascent. split.
  - intros (j & x & y & _ & ?). by exists j, x, y.
  - intros (j & x & y & Hx & Hy & ?). exists j, x, y.
    pose proof (lookup_lt_Some _ _ _ Hy). split; [lia|done].
Qed.

Lemma verify_ordered_from_seq (self : ValuationMatrix) (s k : nat) :
  wf_matrix self → (s + k ≤ length (_v self))%nat →
  (verify_ordered_from self (Z.of_nat <$> seq s k) = Ok ()
   ∧ ∀ (i : nat) row, (s ≤ i < s + k)%nat → _v self !! i = Some row → ¬ has_ascent row)
  ∨ (∃ (i : nat) (v_i : list Z),
       (s ≤ i < s + k)%nat ∧ _v self !! i = Some v_i ∧ has_ascent v_i
       ∧ (∀ (i' : nat) row, (s ≤ i' < i)%nat → _v self !! i' = Some row → ¬ has_ascent row)
       ∧ verify_ordered_from self (Z.of_nat <$> seq s k)
         = Raise (ValueError_not_ordered (Z.of_nat i) v_i)).
Proof.
  intros [Hn Hm]. revert s. induction k as [|k IH]; intros s Hlen.
  - left. split; [done|]. intros; lia.
  - csimpl.
    destruct (lookup_lt_is_Some_2 (_v self) s) as [v_i Hv]; [lia|].
    rewrite (py_getitem_lookup _ _ _ Hv). simpl.
    rewrite <-(Hm v_i) by (by eapply list_elem_of_lookup_2).
    destruct (any_ascent_range v_i) as (b & -> & Hb). simpl.
    destruct b.
    + right. exists s, v_i. split_and!; [lia|lia|done|by apply Hb| |done].
      intros; lia.
    + destruct (IH (S s)) as [[HOk Hall]|(i & row & ? & ? & ? & Hmin & HRaise)]; [lia|..].
      * left. split; [done|]. intros i row Hi Hrow.
        destruct (decide (i = s)) as [->|]; [|apply (Hall i); [lia|done]].
        rewrite Hv in Hrow. injection Hrow as <-.
        intros Hasc. by apply Hb in Hasc.
      * right. exists i, row. split_and!; [lia|lia|done..| |done].
        intros i' row' Hi' Hrow'.
        destruct (decide (i' = s)) as [->|]; [|apply (Hmin i'); [lia|done]].
        rewrite Hv in Hrow'. injection Hrow' as <-.
        intros Hasc. by apply Hb in Hasc.
Qed.

Lemma verify_ordered_spec (self : ValuationMatrix) :
  wf_matrix self →
  (verify_ordered self = Ok () ∧ ∀ row, row ∈ _v self → ¬ has_ascent row)
  ∨ (∃ (i : nat) (v_i : list Z),
       _v self !! i = Some v_i ∧ has_ascent v_i
       ∧ (∀ (i' : nat) row, (i' < i)%nat → _v self !! i' = Some row → ¬ has_ascent row)
       ∧ verify_ordered self = Raise (ValueError_not_ordered (Z.of_nat i) v_i)).
Proof.
  intros Hwf. unfold verify_ordered, agents, range. rewrite (proj1 Hwf), Nat2Z.id.
  destruct (verify_ordered_from_seq self 0 (length (_v self)) Hwf)
    as [[HOk Hall]|(i & row & ? & ? & ? & Hmin & HRaise)]; [lia|..].
  - left. split; [done|]. intros row [i Hi]%list_elem_of_lookup_1.
    apply (Hall i); [|done]. apply lookup_lt_Some in Hi. lia.
  - right. exists i, row. split_and!; [done..| |done].
    intros i' row' Hi'. apply Hmin. lia.
Qed.

(** ** The allocation loop *)

Lemma mapM_result_Raise {A B} (f : A → result B) (l : list A) (e : exn) :
  mapM f l = Raise e → ∃ x, x ∈ l ∧ f x = Raise e.
Proof.
  induction l as [|x l IH]; [done|]. simpl.
  destruct (f x) as [y|e'] eqn:Hx; simpl.
  - destruct (mapM f l) as [k|e'']; simpl; [done|].
    intros [= ->]. destruct IH as (x' & ? & ?); [done|].
    exists x'. split; [by right|done].
  - intros [= ->]. exists x. split; [by left|done].
Qed.

Lemma agent_value_for_bundle_Raise self agent bundle e :
  agent_value_for_bundle self agent bundle = Raise e → e = IndexError.
Proof.
  destruct bundle as [bundle|]; [|done]. simpl.
  destruct (mapM _ bundle) as [values|e'] eqn:Hvalues; simpl; [done|].
  intros [= ->]. apply mapM_result_Raise in Hvalues as (object & _ & Hobject).
  destruct (py_getitem (_v self) agent) as [row|e'] eqn:Hrow; simpl in Hobject.
  - by eapply py_getitem_Raise.
  - injection Hobject as ->. by eapply py_getitem_Raise.
Qed.

Lemma Bag_willing_agent_Raise bag candidate_agents e :
  Bag_willing_agent bag candidate_agents = Raise e → e = IndexError.
Proof.
  induction candidate_agents as [|agent rest IH]; [done|].
  cbn [Bag_willing_agent].
  destruct (agent_value_for_bundle _ _ _) as [value|e'] eqn:Hvalue; simpl.
  - destruct (py_getitem _ agent) as [threshold|e'] eqn:Hthreshold; simpl.
    + by case_decide.
    + intros [= ->]. by eapply py_getitem_Raise.
  - intros [= ->]. by eapply agent_value_for_bundle_Raise.
Qed.

Lemma Bag_fill_Raise bag candidate_items candidate_agents e :
  Bag_fill bag candidate_items candidate_agents = Raise e → e = IndexError.
Proof.
  revert bag. induction candidate_items as [|item rest IH]; intros bag; [done|].
  simpl. destruct (Bag_willing_agent _ _) as [[agent|]|e'] eqn:Hwilling; simpl.
  - done.
  - apply IH.
  - intros [= ->]. by eapply Bag_willing_agent_Raise.
Qed.

Lemma Bag_fill_objects bag candidate_items candidate_agents bag' willing allocated :
  Bag_fill bag candidate_items candidate_agents = Ok (bag', (willing, allocated)) →
  allocated = bag_objects bag'
  ∧ (length (bag_objects bag) ≤ length allocated)%nat.
Proof.
  revert bag. induction candidate_items as [|item rest IH]; intros bag; simpl.
  - intros [= <- <- <-]. done.
  - destruct (Bag_willing_agent _ _) as [[agent|]|e'] eqn:Hwilling; simpl; [| |done].
    + intros [= <- <- <-]. simpl. split; [done|]. rewrite length_app. lia.
    + intros [-> Hlen]%IH. split; [done|].
      simpl in Hlen. rewrite length_app in Hlen. lia.
Qed.

Lemma py_remove_Raise l x e : py_remove l x = Raise e → e = ValueError_remove.
Proof.
  induction l as [|y l IH]; simpl; [by intros [= <-]|].
  case_decide; [done|]. destruct (py_remove l x); simpl; [done|].
  intros [= ->]. by apply IH.
Qed.

Lemma py_remove_length l x l' : py_remove l x = Ok l' → length l = S (length l').
Proof.
  revert l'. induction l as [|y l IH]; intros l'; simpl; [done|].
  case_decide; [by intros [= ->]|].
  destruct (py_remove l x) as [l''|]; simpl; [|done].
  intros [= <-]. simpl. by rewrite (IH l'').
Qed.

Lemma py_remove_all_Raise l xs e : py_remove_all l xs = Raise e → e = ValueError_remove.
Proof.
  revert l. induction xs as [|x xs IH]; intros l; simpl; [done|].
  destruct (py_remove l x) as [l'|e'] eqn:Hl; simpl; [apply IH|].
  intros [= ->]. by eapply py_remove_Raise.
Qed.

Lemma py_remove_all_length l xs l' :
  py_remove_all l xs = Ok l' → length l = (length xs + length l')%nat.
Proof.
  revert l. induction xs as [|x xs IH]; intros l; simpl; [by intros [= ->]|].
  destruct (py_remove l x) as [l''|e'] eqn:Hl; simpl; [|done].
  intros Hxs%IH. by rewrite (py_remove_length _ _ _ Hl), Hxs.
Qed.

Lemma let_agent_get_objects_Raise self agent objects e :
  let_agent_get_objects self agent objects = Raise e → e = ValueError_remove.
Proof.
  unfold let_agent_get_objects.
  destruct (py_remove _ agent) as [agents'|e'] eqn:Hagents; simpl.
  - destruct (py_remove_all _ objects) as [objects'|e'] eqn:Hobjects; simpl; [done|].
    intros [= ->]. by eapply py_remove_all_Raise.
  - intros [= ->]. by eapply py_remove_Raise.
Qed.

Lemma let_agent_get_objects_length self agent objects self' :
  let_agent_get_objects self agent objects = Ok self' →
  length (remaining_objects self)
  = (length objects + length (remaining_objects self'))%nat.
Proof.
  unfold let_agent_get_objects.
  destruct (py_remove _ agent) as [agents'|e'] eqn:Hagents; simpl; [|done].
  destruct (py_remove_all _ objects) as [objects'|e'] eqn:Hobjects; simpl; [|done].
  intros [= <-]. simpl. by apply py_remove_all_length.
Qed.

Lemma bag_filling_loop_Raise fuel allocation bag e :
  bag_filling_loop fuel allocation bag = Some (Raise e) → loop_exn e.
Proof.
  revert allocation bag. induction fuel as [|fuel IH]; intros allocation bag; [done|].
  simpl. destruct (remaining_objects allocation) as [|highest others]; [done|].
  destruct (Bag_fill _ _ _) as [[bag' [[willing|] allocated]]|e'] eqn:Hfill.
  - destruct (let_agent_get_objects _ _ _) as [allocation'|e'] eqn:Hget.
    + apply IH.
    + intros [= ->]. right. by eapply let_agent_get_objects_Raise.
  - done.
  - intros [= ->]. left. by eapply Bag_fill_Raise.
Qed.

Lemma bag_filling_loop_fuel fuel allocation bag :
  (length (remaining_objects allocation) < fuel)%nat →
  is_Some (bag_filling_loop fuel allocation bag).
Proof.
  revert allocation bag. induction fuel as [|fuel IH]; intros allocation bag Hfuel; [lia|].
  simpl. destruct (remaining_objects allocation) as [|highest others] eqn:Hobjects; [done|].
  destruct (Bag_fill _ _ _) as [[bag' [[willing|] allocated]]|e'] eqn:Hfill; [|done..].
  destruct (let_agent_get_objects _ _ _) as [allocation'|e'] eqn:Hget; [|done].
  apply IH. apply let_agent_get_objects_length in Hget.
  apply Bag_fill_objects in Hfill as [_ Hlen]. simpl in Hlen.
  rewrite length_app in Hlen. simpl in *. rewrite Hobjects in Hget. simpl in *. lia.
Qed.

Lemma bidirectional_bag_filling_terminates valuation_matrix thresholds :
  is_Some (bidirectional_bag_filling valuation_matrix thresholds).
Proof.
  unfold bidirectional_bag_filling.
  destruct (matrix_from valuation_matrix).2 as [m|e]; [|done].
  destruct (verify_ordered m) as [[]|e]; [|done].
  case_decide; [done|].
  destruct (bag_filling_loop_fuel (S (length (objects m)))
              (SequentialAllocation_init (agents m) (objects m))
              (Bag_init m thresholds)) as [r ->]; [simpl; lia|].
  done.
Qed.

(** On a rectangular matrix with one threshold per agent the loop raises
    nothing: every index it uses is in range and every object it removes
    remains. *)

Lemma agent_value_for_bundle_in_range m agent bundle :
  wf_matrix m → 0 ≤ agent < num_of_agents m →
  Forall (λ object, 0 ≤ object < num_of_objects m) bundle →
  ∃ x, agent_value_for_bundle m agent (Some bundle) = Ok x.
Proof.
  intros [Hn Hm] Hagent Hbundle.
  destruct (py_getitem_in_range (_v m) agent) as (row & Hin & Hrow); [lia|].
  apply list_elem_of_lookup_2 in Hin.
  assert (∃ values, Forall2 (λ o x, py_getitem row o = Ok x) bundle values)
    as [values Hvalues].
  { induction Hbundle as [|o bundle Ho _ [values IH]]; [by exists []|].
    destruct (py_getitem_in_range row o) as (x & _ & Hx); [by rewrite (Hm row Hin)|].
    exists (x :: values). by constructor. }
  exists (py_sum values). by apply agent_value_for_bundle_Ok with row.
Qed.

Lemma Bag_willing_agent_in_range bag candidate_agents :
  wf_matrix (bag_valuation_matrix bag) →
  Z.of_nat (length (bag_thresholds bag)) = num_of_agents (bag_valuation_matrix bag) →
  Forall (λ agent, 0 ≤ agent < num_of_agents (bag_valuation_matrix bag)) candidate_agents →
  Forall (λ object, 0 ≤ object < num_of_objects (bag_valuation_matrix bag)) (bag_objects bag) →
  ∃ willing, Bag_willing_agent bag candidate_agents = Ok willing
    ∧ ∀ agent, willing = Some agent → agent ∈ candidate_agents.
Proof.
  intros Hwf Hlen Hagents Hobjects.
  induction Hagents as [|agent rest Hagent _ (willing & IH & Hwilling)].
  - by exists None.
  - cbn [Bag_willing_agent].
    destruct (agent_value_for_bundle_in_range _ agent _ Hwf Hagent Hobjects) as [value ->].
    destruct (py_getitem_in_range (bag_thresholds bag) agent) as (threshold & _ & ->); [lia|].
    simpl. case_decide.
    + exists (Some agent). split; [done|]. intros ? [= <-]. by left.
    + exists willing. split; [done|]. intros a Ha. right. by apply Hwilling.
Qed.

Lemma Bag_fill_in_range m thresholds bag candidate_items candidate_agents :
  wf_matrix m → Z.of_nat (length thresholds) = num_of_agents m →
  bag_valuation_matrix bag = m → bag_thresholds bag = thresholds →
  Forall (λ agent, 0 ≤ agent < num_of_agents m) candidate_agents →
  Forall (λ object, 0 ≤ object < num_of_objects m) (bag_objects bag) →
  Forall (λ object, 0 ≤ object < num_of_objects m) candidate_items →
  ∃ bag' willing (k : nat),
    Bag_fill bag candidate_items candidate_agents
    = Ok (bag', (willing, bag_objects bag ++ take k candidate_items))
    ∧ bag_valuation_matrix bag' = m
    ∧ bag_thresholds bag' = thresholds
    ∧ ∀ agent, willing = Some agent → agent ∈ candidate_agents.
Proof.
  intros Hwf Hlen Hm Hthresholds Hagents Hobjects Hitems.
  revert bag Hm Hthresholds Hobjects.
  induction Hitems as [|item rest Hitem _ IH]; intros bag Hm Hthresholds Hobjects.
  - exists bag, None, 0%nat. simpl. rewrite app_nil_r. by split_and!.
  - cbn [Bag_fill].
    assert (Forall (λ object, 0 ≤ object < num_of_objects m)
              (bag_objects (Bag_append bag item))) as Hobjects'.
    { simpl. apply Forall_app. split; [done|]. by constructor. }
    destruct (Bag_willing_agent_in_range (Bag_append bag item) candidate_agents)
      as (willing & -> & Hwilling); simpl; rewrite ?Hm, ?Hthresholds; [done..|].
    simpl. destruct willing as [agent|].
    + by exists (Bag_append bag item), (Some agent), 1%nat.
    + destruct (IH (Bag_append bag item)) as (bag' & willing & k & -> & ? & ? & ?);
        [done..|].
      exists bag', willing, (S k). split_and!; [|done..].
      simpl. by rewrite <-app_assoc.
Qed.

Lemma py_remove_elem_of l x :
  x ∈ l → ∃ l', py_remove l x = Ok l' ∧ l' ⊆ l
    ∧ (NoDup l → NoDup l' ∧ ∀ y, y ∈ l → y ≠ x → y ∈ l').
Proof.
  induction l as [|y l IH]; [by intros ?%elem_of_nil|].
  intros Hx. simpl. case_decide as Hy.
  - subst y. exists l. split_and!; [done|by right|].
    intros [Hnotin Hl]%NoDup_cons. split; [done|].
    by intros y [->|?]%elem_of_cons.
  - apply elem_of_cons in Hx as [->|Hx]; [done|].
    destruct (IH Hx) as (l' & -> & Hsub & Hnodup).
    exists (y :: l'). split_and!; [done| |].
    + intros z [->|Hz]%elem_of_cons; [by left|right; by apply Hsub].
    + intros [Hnotin Hl]%NoDup_cons. destruct (Hnodup Hl) as [Hl' Hkeep].
      split.
      * apply NoDup_cons. split; [|done]. intros Hin. by apply Hnotin, Hsub.
      * intros z [->|Hz]%elem_of_cons Hzx; [by left|right; by apply Hkeep].
Qed.

Lemma py_remove_all_elem_of l xs :
  NoDup l → NoDup xs → xs ⊆ l →
  ∃ l', py_remove_all l xs = Ok l' ∧ NoDup l' ∧ l' ⊆ l.
Proof.
  intros Hl Hxs. revert l Hl. induction Hxs as [|x xs Hx _ IH]; intros l Hl Hsub.
  - by exists l.
  - simpl. destruct (py_remove_elem_of l x) as (l1 & -> & Hsub1 & Hnodup).
    { apply Hsub. by left. }
    destruct (Hnodup Hl) as [Hl1 Hkeep]. simpl.
    destruct (IH l1) as (l' & -> & ? & Hsub'); [done| |].
    { intros y Hy. apply Hkeep; [apply Hsub; by right|]. by intros ->. }
    exists l'. split_and!; [done..|]. intros y Hy. by apply Hsub1, Hsub'.
Qed.

Lemma NoDup_range (n : Z) : NoDup (range n).
Proof. unfold range. apply NoDup_fmap_2; [apply _|apply NoDup_seq]. Qed.

Lemma bag_filling_loop_in_range m thresholds fuel allocation bag :
  wf_matrix m → Z.of_nat (length thresholds) = num_of_agents m →
  loop_state_ok m thresholds allocation bag →
  (length (remaining_objects allocation) < fuel)%nat →
  ∃ allocation', bag_filling_loop fuel allocation bag = Some (Ok allocation').
Proof.
  intros Hwf Hlen. revert allocation bag.
  induction fuel as [|fuel IH]; intros allocation bag [Hm Hth Hempty Hagents Hobjects Hdistinct] Hfuel;
    [lia|].
  cbn [bag_filling_loop].
  destruct (remaining_objects allocation) as [|highest others] eqn:Hremaining; [by eexists|].
  apply Forall_cons in Hobjects as [Hhighest Hothers].
  apply NoDup_cons in Hdistinct as [Hfresh Hdistinct].
  destruct (Bag_fill_in_range m thresholds (Bag_append bag highest) (reverse others)
              (remaining_agents allocation))
    as (bag' & willing & k & -> & Hm' & Hth' & Hwilling); [done..| | |].
  { simpl. rewrite Hempty. by constructor. }
  { by apply Forall_reverse. }
  destruct willing as [agent|]; [|by eexists].
  simpl. rewrite Hempty. simpl.
  unfold let_agent_get_objects.
  destruct (py_remove_elem_of (remaining_agents allocation) agent)
    as (agents' & -> & Hsub & _); [by apply Hwilling|].
  assert (take k (reverse others) ⊆ others) as Htake.
  { intros x (i & Hx & _)%elem_of_take.
    apply elem_of_reverse. by eapply list_elem_of_lookup_2. }
  destruct (py_remove_all_elem_of (highest :: others) (highest :: take k (reverse others)))
    as (objects' & Hremove & Hdistinct' & Hsub').
  { by apply NoDup_cons. }
  { apply NoDup_cons. split; [by intros ?%Htake|].
    eapply sublist_NoDup; [|apply sublist_take]. by rewrite reverse_Permutation. }
  { intros x [->|Hx]%elem_of_cons; [by left|right; by apply Htake]. }
  rewrite Hremaining, Hremove. cbn.
  apply IH.
  - split; simpl; [done..| | |done].
    + rewrite Forall_forall in Hagents. apply Forall_forall. intros a Ha. by apply Hagents, Hsub.
    + assert (Forall (λ object, 0 ≤ object < num_of_objects m) (highest :: others)) as Hall
        by by constructor.
      rewrite Forall_forall in Hall. apply Forall_forall. intros o Ho. by apply Hall, Hsub'.
  - simpl. simpl in Hremove.
    rewrite decide_True in Hremove by done. simpl in Hremove.
    apply py_remove_all_length in Hremove. simpl in Hfuel. lia.
Qed.

(** ** bidirectional_bag_filling *)

Lemma np_array_rectangular (rows : list (list Z)) (a : ndarray) :
  np_array rows = Ok a → a = rows ∧ rectangular a.
Proof.
  unfold np_array. destruct rows as [|r rows].
  - intros [= <-]. split; [done|]. intros ? ? []%elem_of_nil.
  - case_decide as Hlen; [|done]. intros [= <-]. split; [done|].
    rewrite Forall_forall in Hlen.
    assert (∀ r', r' ∈ r :: rows → length r' = length r) as Hall.
    { intros r' [->|?]%elem_of_cons; [done|by apply Hlen]. }
    intros r1 r2 H1 H2. by rewrite (Hall r1), (Hall r2).
Qed.

Lemma ValuationMatrix_init_wf (a : ndarray) :
  rectangular a → wf_matrix (ValuationMatrix_init a).
Proof.
  intros Hrect. split; [done|]. simpl. intros row Hrow.
  destruct a as [|r a]; [by apply elem_of_nil in Hrow|].
  rewrite decide_False by (simpl; lia).
  f_equal. apply Hrect; [done|by left].
Qed.

Lemma matrix_from_wf (valuation_matrix : pyinput) (m : ValuationMatrix) :
  match valuation_matrix with
  | InMatrix m' => wf_matrix m'
  | InArray a => rectangular a
  | InList _ | InDict _ => True
  end →
  (matrix_from valuation_matrix).2 = Ok m → wf_matrix m.
Proof.
  destruct valuation_matrix as [m'|a|l|d]; intros Hin.
  - by intros [= <-].
  - intros [= <-]. by apply ValuationMatrix_init_wf.
  - rewrite matrix_from_list. unfold ValuationMatrix_of_list.
    destruct (np_array _) as [a|] eqn:Ha; simpl; [|done].
    intros [= <-]. by apply ValuationMatrix_init_wf, (np_array_rectangular _ _ Ha).
  - rewrite matrix_from_dict. unfold ValuationMatrix_of_list.
    destruct (np_array _) as [a|] eqn:Ha; simpl; [|done].
    intros [= <-]. by apply ValuationMatrix_init_wf, (np_array_rectangular _ _ Ha).
Qed.

Lemma bidirectional_bag_filling_unordered valuation_matrix thresholds m e :
  (matrix_from valuation_matrix).2 = Ok m → verify_ordered m = Raise e →
  bidirectional_bag_filling valuation_matrix thresholds = Some (Raise e).
Proof. intros Hm He. unfold bidirectional_bag_filling. by rewrite Hm, He. Qed.

Lemma bidirectional_bag_filling_ordered valuation_matrix thresholds m :
  (matrix_from valuation_matrix).2 = Ok m → verify_ordered m = Ok () →
  (Z.of_nat (length thresholds) ≠ num_of_agents m →
     bidirectional_bag_filling valuation_matrix thresholds
     = Some (Raise (ValueError_thresholds (num_of_agents m)
                      (Z.of_nat (length thresholds)))))
  ∧ (Z.of_nat (length thresholds) = num_of_agents m →
     ∀ e, bidirectional_bag_filling valuation_matrix thresholds = Some (Raise e) →
          loop_exn e).
Proof.
  intros Hm HOk. unfold bidirectional_bag_filling. rewrite Hm, HOk. split.
  - intros Hne. by rewrite decide_True.
  - intros Heq e. rewrite decide_False by (intros Hne; by apply Hne).
    destruct (bag_filling_loop _ _ _) as [[allocation|e']|] eqn:Hloop; simpl; [done| |done].
    intros [= ->]. by eapply bag_filling_loop_Raise.
Qed.

(** C1.  [bidirectional_bag_filling] requires an ordered matrix.  When some
    row has an ascent, the call raises the error that names an agent whose
    row has an ascent, with that row (the first such agent), whatever the
    thresholds are and before the loop is entered; when every row is
    non-increasing, it does not raise this error. *)
Theorem bidirectional_bag_filling_requires_ordered
    (valuation_matrix : pyinput) (thresholds : list Z) (m : ValuationMatrix) :
  (matrix_from valuation_matrix).2 = Ok m → wf_matrix m →
  ((∃ row, row ∈ _v m ∧ has_ascent row) →
     ∃ (i : nat) (v_i : list Z),
       _v m !! i = Some v_i ∧ has_ascent v_i
       ∧ (∀ (i' : nat) row, (i' < i)%nat → _v m !! i' = Some row → nonincreasing row)
       ∧ bidirectional_bag_filling valuation_matrix thresholds
         = Some (Raise (ValueError_not_ordered (Z.of_nat i) v_i)))
  ∧ ((∀ row, row ∈ _v m → nonincreasing row) →
     ∃ r, bidirectional_bag_filling valuation_matrix thresholds = Some r
          ∧ ∀ i v_i, r ≠ Raise (ValueError_not_ordered i v_i)).
Proof.
  intros Hm Hwf.
  destruct (verify_ordered_spec m Hwf)
    as [[HOk Hall]|(i & v_i & Hi & Hasc & Hmin & HRaise)]; split.
  - intros (row & Hrow & Hrow'). by destruct (Hall row).
  - intros _.
    destruct (bidirectional_bag_filling_terminates valuation_matrix thresholds)
      as [r Hr].
    exists r. split; [done|]. intros i v_i ->.
    destruct (decide (Z.of_nat (length thresholds) = num_of_agents m)) as [Heq|Hne].
    + apply (bidirectional_bag_filling_ordered _ thresholds _ Hm HOk) in Hr; [|done].
      by destruct Hr.
    + apply (bidirectional_bag_filling_ordered _ thresholds _ Hm HOk) in Hne.
      congruence.
  - intros _. exists i, v_i. split_and!; [done..| |].
    + intros i' row Hi' Hrow. apply nonincreasing_no_ascent. by eapply Hmin.
    + by apply bidirectional_bag_filling_unordered with m.
  - intros Hall. destruct (proj1 (nonincreasing_no_ascent v_i)); [|done].
    apply Hall. by eapply list_elem_of_lookup_2.
Qed.

Lemma bidirectional_bag_filling_requires_ordered_witness :
  ∃ r, bidirectional_bag_filling (InList [RowList [7; 4; 1]; RowList [6; 3; 0]]) [5; 5]
       = Some r
       ∧ ∀ i v_i, r ≠ Raise (ValueError_not_ordered i v_i).
Proof.
  apply (bidirectional_bag_filling_requires_ordered
           (InList [RowList [7; 4; 1]; RowList [6; 3; 0]]) [5; 5]
           (ValuationMatrix_init [[7; 4; 1]; [6; 3; 0]])).
  - reflexivity.
  - apply ValuationMatrix_init_wf.
    intros r r' Hr Hr'. set_unfold. destruct Hr as [->|[->|[]]], Hr' as [->|[->|[]]]; reflexivity.
  - intros row Hrow j a b Ha Hb. set_unfold.
    destruct Hrow as [->|[->|[]]];
      repeat (destruct j as [|j]; simplify_eq/=; try lia).
Defined.

Lemma verify_ordered_Ok (m : ValuationMatrix) :
  wf_matrix m → (∀ row, row ∈ _v m → nonincreasing row) → verify_ordered m = Ok ().
Proof.
  intros Hwf Hall.
  destruct (verify_ordered_spec m Hwf) as [[HOk _]|(i & v_i & Hi & Hasc & _)]; [done|].
  destruct (proj1 (nonincreasing_no_ascent v_i)); [|done].
  apply Hall. by eapply list_elem_of_lookup_2.
Qed.

(** On an ordered matrix with one threshold per agent the call returns an
    allocation for the agents of the matrix. *)
Lemma bidirectional_bag_filling_succeeds valuation_matrix thresholds m :
  (matrix_from valuation_matrix).2 = Ok m → wf_matrix m →
  verify_ordered m = Ok () →
  Z.of_nat (length thresholds) = num_of_agents m →
  ∃ allocation,
    bidirectional_bag_filling valuation_matrix thresholds = Some (Ok allocation)
    ∧ allocation_matrix allocation = m
    ∧ length (allocation_bundles allocation) = Z.to_nat (num_of_agents m).
Proof.
  intros Hm Hwf HOk Hlen. unfold bidirectional_bag_filling. rewrite Hm, HOk.
  rewrite decide_False by (intros Hne; by apply Hne).
  destruct (bag_filling_loop_in_range m thresholds (S (length (objects m)))
              (SequentialAllocation_init (agents m) (objects m))
              (Bag_init m thresholds)) as [allocation ->]; [done..| |simpl; lia|].
  - split; simpl; [done..| | |apply NoDup_range];
      apply Forall_forall; intros x; apply elem_of_range.
  - simpl. eexists. split_and!; [done..|].
    unfold Allocation_init. cbn [allocation_bundles].
    unfold agents, range. by rewrite !length_fmap, length_seq.
Qed.

Example verify_ordered_doctest :
  verify_ordered (ValuationMatrix_init [[7; 4; 1]; [6; 3; 0]]) = Ok ()
  ∧ verify_ordered (ValuationMatrix_init [[7; 4; 1]; [6; 0; 3]])
    = Raise (ValueError_not_ordered 1 [6; 0; 3]).
Proof. split; reflexivity. Qed.

(** C3, as stated, fails: with an unordered matrix and a threshold list of
    the wrong length, the ordering check comes first and its error is the
    one raised. *)
Lemma thresholds_error_preceded_by_ordering_check :
  (matrix_from (InList [RowList [1; 2]])).2 = Ok (ValuationMatrix_init [[1; 2]])
  ∧ Z.of_nat (length (@nil Z)) ≠ num_of_agents (ValuationMatrix_init [[1; 2]])
  ∧ bidirectional_bag_filling (InList [RowList [1; 2]]) []
    = Some (Raise (ValueError_not_ordered 0 [1; 2]))
  ∧ bidirectional_bag_filling (InList [RowList [1; 2]]) []
    ≠ Some (Raise (ValueError_thresholds 1 0)).
Proof. split_and!; [reflexivity|by vm_compute|reflexivity|by vm_compute]. Qed.

(** C3, amended.  On a matrix whose rows are all non-increasing: when the
    number of thresholds differs from the number of agents the call raises
    the error naming both counts, before the loop is entered; when the two
    are equal it does not raise this error. *)
Theorem bidirectional_bag_filling_checks_thresholds
    (valuation_matrix : pyinput) (thresholds : list Z) (m : ValuationMatrix) :
  (matrix_from valuation_matrix).2 = Ok m → wf_matrix m →
  (∀ row, row ∈ _v m → nonincreasing row) →
  (Z.of_nat (length thresholds) ≠ num_of_agents m →
     bidirectional_bag_filling valuation_matrix thresholds
     = Some (Raise (ValueError_thresholds (num_of_agents m)
                      (Z.of_nat (length thresholds)))))
  ∧ (Z.of_nat (length thresholds) = num_of_agents m →
     ∃ r, bidirectional_bag_filling valuation_matrix thresholds = Some r
          ∧ ∀ n k, r ≠ Raise (ValueError_thresholds n k)).
Proof.
  intros Hm Hwf Hall. pose proof (verify_ordered_Ok m Hwf Hall) as HOk.
  destruct (bidirectional_bag_filling_ordered _ thresholds _ Hm HOk) as [Hne Heq].
  split; [done|]. intros Hlen.
  destruct (bidirectional_bag_filling_terminates valuation_matrix thresholds)
    as [r Hr].
  exists r. split; [done|]. intros n k ->. by destruct (Heq Hlen _ Hr).
Qed.

Lemma bidirectional_bag_filling_checks_thresholds_witness :
  bidirectional_bag_filling (InList [RowList [7; 4; 1]; RowList [6; 3; 0]]) [5; 5; 5]
    = Some (Raise (ValueError_thresholds 2 3)).
Proof.
  apply (bidirectional_bag_filling_checks_thresholds
           (InList [RowList [7; 4; 1]; RowList [6; 3; 0]]) [5; 5; 5]
           (ValuationMatrix_init [[7; 4; 1]; [6; 3; 0]])).
  - reflexivity.
  - apply ValuationMatrix_init_wf.
    intros r r' Hr Hr'. set_unfold. destruct Hr as [->|[->|[]]], Hr' as [->|[->|[]]]; reflexivity.
  - intros row Hrow j a b Ha Hb. set_unfold.
    destruct Hrow as [->|[->|[]]];
      repeat (destruct j as [|j]; simplify_eq/=; try lia).
  - simpl. lia.
Defined.

(** C2.  Three agents with the valuations [97,96,90,12,3,2,1,1,1]: with
    thresholds 100 the bundles are {0,6,7,8}, {1,4,5} and {2,3}, of values
    100, 101 and 102; with thresholds 101 the third agent gets no bundle
    and value 0. *)
Theorem bidirectional_bag_filling_scenario :
  (∃ allocation,
     bidirectional_bag_filling three_identical_agents [100; 100; 100] = Some (Ok allocation)
     ∧ allocation_bundles allocation = [Some [0; 8; 7; 6]; Some [1; 5; 4]; Some [2; 3]]
     ∧ bundle_set <$> allocation_bundles allocation
       = [Some {[0; 6; 7; 8]}; Some {[1; 4; 5]}; Some {[2; 3]}]
     ∧ Allocation_values allocation = Ok [100; 101; 102])
  ∧ (∃ allocation,
     bidirectional_bag_filling three_identical_agents [101; 101; 101] = Some (Ok allocation)
     ∧ allocation_bundles allocation !! 2%nat = Some None
     ∧ Allocation_values allocation = Ok [102; 111; 0]
     ∧ bundle_set <$> allocation_bundles allocation
       = [Some {[0; 5; 6; 7; 8]}; Some {[1; 3; 4]}; None]).
Proof.
  split; eexists; (split; [vm_compute; reflexivity|]).
  - split_and!; [reflexivity| |reflexivity].
    simpl. repeat f_equal; apply set_eq; set_solver.
  - split_and!; [reflexivity..|].
    simpl. repeat f_equal; apply set_eq; set_solver.
Qed.

(** ** The methods and the store *)

Lemma normalize_shape (self : ValuationMatrix) :
  num_of_agents (normalize self).1 = num_of_agents self
  ∧ num_of_objects (normalize self).1 = num_of_objects self
  ∧ length <$> _v (normalize self).1 = length <$> _v self.
Proof.
  unfold normalize. destruct (np_lcm_reduce _) as [total_value|e]; [|done].
  simpl. split_and!; [done..|]. unfold np_sum_axis1.
  generalize (Int64.floor_divide total_value). intros f.
  induction (_v self) as [|row v IH]; [done|]. csimpl. by rewrite IH, length_fmap.
Qed.

Lemma extends_refl (s : Object.store) : extends s s.
Proof. by split. Qed.

Lemma extends_trans (s1 s2 s3 : Object.store) :
  extends s1 s2 → extends s2 s3 → extends s1 s3.
Proof. intros [? ?] [? ?]. split; by etrans. Qed.

Lemma allocates_only_ret {A} (a : A) : allocates_only (mret a : Object.M A).
Proof. intros s. apply extends_refl. Qed.

Lemma allocates_only_lift {A} (r : result A) : allocates_only (Object.lift r).
Proof. intros s. apply extends_refl. Qed.

Lemma allocates_only_bind {A B} (p : Object.M A) (f : A → Object.M B) :
  allocates_only p → (∀ a, allocates_only (f a)) → allocates_only (p ≫= f).
Proof.
  intros Hp Hf s. unfold mbind, Object.M_bind. specialize (Hp s).
  destruct (p s) as [s' [a|e]]; simpl in *; [|done].
  apply extends_trans with s'; [done|apply Hf].
Qed.

Lemma allocates_only_fmap {A B} (f : A → B) (p : Object.M A) :
  allocates_only p → allocates_only (f <$> p).
Proof.
  intros Hp. apply allocates_only_bind; [done|]. intros a. apply allocates_only_ret.
Qed.

Lemma allocates_only_read_array (l : nat) : allocates_only (Object.read_array l).
Proof. intros s. apply extends_refl. Qed.

Lemma allocates_only_read_instance (self : nat) :
  allocates_only (Object.read_instance self).
Proof. intros s. apply extends_refl. Qed.

Lemma allocates_only_new_array (a : ndarray) : allocates_only (Object.new_array a).
Proof. intros s. split; simpl; [by apply prefix_app_r|done]. Qed.

Lemma allocates_only_new_instance (o : Object.instance) :
  allocates_only (Object.new_instance o).
Proof. intros s. split; simpl; [done|by apply prefix_app_r]. Qed.

(** One step of the argument that a program only reads and allocates: the
    program is a bind, or one of the operations above. *)
Ltac allocates_only_step :=
  first
    [ apply allocates_only_bind; [|intros ?]
    | apply allocates_only_fmap
    | apply allocates_only_ret
    | apply allocates_only_lift
    | apply allocates_only_read_array
    | apply allocates_only_read_instance
    | apply allocates_only_new_array
    | apply allocates_only_new_instance ].

Lemma allocates_only_new (valuation_matrix : Object.init_arg) :
  allocates_only (Object.new valuation_matrix).
Proof.
  unfold Object.new. destruct valuation_matrix; repeat allocates_only_step.
Qed.

Lemma allocates_only_read (self : nat) : allocates_only (Object.read self).
Proof. unfold Object.read. repeat allocates_only_step. Qed.

(** Every method but [normalize] reads and allocates only. *)
Lemma allocates_only_call (c : Object.method) (self : nat) :
  c ≠ Object.Call_normalize → allocates_only (Object.call c self).
Proof.
  intros Hc.
  destruct c; try done;
    unfold Object.call, Object.agents, Object.objects, Object.getitem_row,
      Object.getitem, Object.agent_value_for_bundle, Object.without_agent,
      Object.without_object, Object.submatrix, Object.verify_ordered,
      Object.verify_normalized, Object.equals;
    repeat first [apply allocates_only_read | apply allocates_only_new
                 | allocates_only_step].
Qed.

Lemma read_contents (self : nat) (s : Object.store) :
  Object.read self s = (s, Ok (Object.contents s self)).
Proof. done. Qed.

(** What was allocated keeps its contents in every extension of the store. *)
Lemma extends_contents (s s' : Object.store) (self : nat) :
  extends s s' → allocated s self →
  allocated s' self
  ∧ Object.instances s' !!! self = Object.instances s !!! self
  ∧ Object.contents s' self = Object.contents s self.
Proof.
  intros [Harrays Hinstances] [Hself Hv].
  pose proof (prefix_length _ _ Harrays) as Hla.
  pose proof (prefix_length _ _ Hinstances) as Hli.
  assert (Object.instances s' !!! self = Object.instances s !!! self) as Ho.
  { apply list_lookup_total_correct.
    eapply prefix_lookup_Some; [|exact Hinstances].
    by apply list_lookup_lookup_total_lt. }
  assert (Object.arrays s' !!! Object.self_v (Object.instances s !!! self)
          = Object.arrays s !!! Object.self_v (Object.instances s !!! self)) as Ha.
  { apply list_lookup_total_correct.
    eapply prefix_lookup_Some; [|exact Harrays].
    by apply list_lookup_lookup_total_lt. }
  split_and!; [split; [lia|rewrite Ho; lia]|done|].
  unfold Object.contents. cbv zeta. by rewrite Ho, Ha.
Qed.

(** [normalize] on a reference writes to the array of [self] what
    [normalize] on values computes from the contents of [self], and
    nothing else. *)
Lemma Object_normalize_spec (self : nat) (s : Object.store) :
  Object.normalize self s
  = (Object.mkStore
       (<[Object.self_v (Object.instances s !!! self)
            := _v (normalize (Object.contents s self)).1]> (Object.arrays s))
       (Object.instances s),
     (normalize (Object.contents s self)).2).
Proof.
  unfold Object.normalize, normalize, Object.contents.
  unfold mbind, Object.M_bind, Object.read_instance, Object.read_array,
    Object.lift, Object.write_array. cbn [_v].
  set (l := Object.self_v (Object.instances s !!! self)).
  destruct (np_lcm_reduce (np_sum_axis1 (Object.arrays s !!! l))) as [total_value|e];
    [done|]. cbn [fst snd _v]. f_equal.
  destruct s as [arrays instances]. cbn [Object.arrays Object.instances]. f_equal.
  destruct (decide (l < length arrays)%nat) as [Hl|Hl].
  - symmetry. apply list_insert_id. by apply list_lookup_lookup_total_lt.
  - symmetry. apply list_insert_ge. lia.
Qed.

Lemma call_normalize_store (self : nat) (s : Object.store) :
  (Object.call Object.Call_normalize self s).1 = (Object.normalize self s).1.
Proof.
  unfold Object.call, fmap, Object.M_fmap, mbind, Object.M_bind.
  by destruct (Object.normalize self s) as [s' [x|e]].
Qed.

(** C4, as stated, fails: [normalize] multiplies the table in place.  After
    [v = ValuationMatrix([[1,1],[1,2]])] the call [v.normalize()] leaves
    the table [[3,3],[2,4]] in [v].  The array is shared, not copied, by
    [w = ValuationMatrix(v)] and by the view [row = v[1]]: [w.normalize()]
    changes the table of [v] and what [row] shows. *)
Lemma table_updated_by_normalize :
  ((v ← Object.new (Object.Arg_list [[1; 1]; [1; 2]]);
    before ← Object.read v;
    _ ← Object.normalize v;
    after ← Object.read v;
    mret (before, after)) (Object.mkStore [] [])).2
  = Ok (mkValuationMatrix [[1; 1]; [1; 2]] 2 2, mkValuationMatrix [[3; 3]; [2; 4]] 2 2)
  ∧ ((v ← Object.new (Object.Arg_list [[1; 1]; [1; 2]]);
      w ← Object.new (Object.Arg_matrix v);
      row ← Object.getitem_row v 1;
      before ← Object.read v;
      row_before ← Object.read_view row;
      _ ← Object.normalize w;
      after ← Object.read v;
      row_after ← Object.read_view row;
      mret (before, row_before, after, row_after)) (Object.mkStore [] [])).2
    = Ok (mkValuationMatrix [[1; 1]; [1; 2]] 2 2, [1; 2],
          mkValuationMatrix [[3; 3]; [2; 4]] 2 2, [2; 4]).
Proof. split; reflexivity. Qed.

(** C4, amended.  Let [other] be any matrix in the store, [self] included.
    A public operation other than [normalize] overwrites nothing: the
    store after the call extends the store before it, and the contents of
    [other] (table, [num_of_agents], [num_of_objects]) are as before.
    [normalize] changes no attribute of any object and leaves every array
    but [self._v] as it was; it writes to [self._v] the table that
    [normalize] computes from the contents of [self], which is then the
    table of every matrix that refers to this array.  After every
    operation [other] has its [num_of_agents], its [num_of_objects] and
    the shape of its table as before. *)
Theorem table_updated_only_by_normalize (c : Object.method) (self other : nat)
    (s s' : Object.store) (r : result Object.pyvalue) :
  allocated s other →
  Object.call c self s = (s', r) →
  (c ≠ Object.Call_normalize →
     extends s s' ∧ Object.contents s' other = Object.contents s other)
  ∧ (c = Object.Call_normalize →
       Object.instances s' = Object.instances s
       ∧ (∀ l, l ≠ Object.self_v (Object.instances s !!! self) →
            Object.arrays s' !! l = Object.arrays s !! l)
       ∧ _v (Object.contents s' other)
         = if decide (Object.self_v (Object.instances s !!! other)
                      = Object.self_v (Object.instances s !!! self))
           then _v (normalize (Object.contents s self)).1
           else _v (Object.contents s other))
  ∧ allocated s' other
  ∧ num_of_agents (Object.contents s' other) = num_of_agents (Object.contents s other)
  ∧ num_of_objects (Object.contents s' other) = num_of_objects (Object.contents s other)
  ∧ length <$> _v (Object.contents s' other) = length <$> _v (Object.contents s other).
Proof.
  intros Hother Hcall.
  destruct (decide (c = Object.Call_normalize)) as [->|Hc].
  - assert (s' = (Object.normalize self s).1) as ->.
    { by rewrite <-call_normalize_store, Hcall. }
    rewrite Object_normalize_spec. cbn [fst].
    set (l := Object.self_v (Object.instances s !!! self)).
    set (v' := _v (normalize (Object.contents s self)).1).
    destruct Hother as [Hself Hv].
    assert (_v (Object.contents (Object.mkStore (<[l := v']> (Object.arrays s))
                                   (Object.instances s)) other)
            = if decide (Object.self_v (Object.instances s !!! other) = l)
              then v' else _v (Object.contents s other)) as Htable.
    { unfold Object.contents. cbn [_v Object.arrays Object.instances].
      case_decide as Hl.
      - rewrite Hl. apply list_lookup_total_correct, list_lookup_insert_eq. lia.
      - by rewrite list_lookup_total_insert_ne. }
    split_and!; [done| |split|done|done|].
    + intros _. split_and!; [done| |done].
      intros l' Hl'. cbn [Object.arrays]. by apply list_lookup_insert_ne.
    + done.
    + cbn [Object.arrays Object.instances]. by rewrite length_insert.
    + rewrite Htable. case_decide as Hl; [|done].
      unfold v'. destruct (normalize_shape (Object.contents s self)) as (_ & _ & ->).
      unfold Object.contents. cbn [_v]. by rewrite Hl.
  - pose proof (allocates_only_call c self Hc s) as Hext. rewrite Hcall in Hext.
    destruct (extends_contents s s' other Hext Hother) as (Halloc & _ & Hcontents).
    rewrite Hcontents. by split_and!.
Qed.

Lemma table_updated_only_by_normalize_witness :
  Object.contents
    (Object.call (Object.Call_without_agent 0) 0
       (Object.mkStore [[[1; 4; 7]; [6; 3; 0]]] [Object.mkInstance 0 2 3])).1 0
  = mkValuationMatrix [[1; 4; 7]; [6; 3; 0]] 2 3.
Proof.
  destruct (Object.call (Object.Call_without_agent 0) 0
              (Object.mkStore [[[1; 4; 7]; [6; 3; 0]]] [Object.mkInstance 0 2 3]))
    as [s' r] eqn:Hcall.
  destruct (table_updated_only_by_normalize (Object.Call_without_agent 0) 0 0
              (Object.mkStore [[[1; 4; 7]; [6; 3; 0]]] [Object.mkInstance 0 2 3]) s' r)
    as [Hframe _]; [split; simpl; lia|exact Hcall|].
  destruct Hframe as [_ Hcontents]; [done|]. simpl. by rewrite Hcontents.
Defined.

(** ** verify_normalized *)

(** [verify_normalized] compares the totals that [np.sum] computes. *)
Lemma verify_normalized_totals (self : ValuationMatrix) :
  _v self ≠ [] →
  ((∃ e, verify_normalized self = Raise e)
     ↔ ¬ ∃ t, Forall (λ x, x = t) (np_sum_axis1 (_v self)))
  ∧ (∀ t, Forall (λ x, x = t) (np_sum_axis1 (_v self)) → verify_normalized self = Ok t)
  ∧ (∀ e, verify_normalized self = Raise e → e = ValueError_not_normalized).
Proof.
  intros Hne. unfold verify_normalized, np_sum_axis1.
  destruct (_v self) as [|row v]; [done|]. csimpl.
  change (py_getitem (py_sum row :: (py_sum <$> v)) 0) with (Ok (py_sum row)). simpl.
  split_and!.
  - case_decide as Hall; split.
    + by intros [e ?].
    + intros []. by eexists.
    + intros _ [t Ht]. destruct Hall.
      pose proof (Forall_inv Ht) as Hrow. simpl in Hrow. by subst t.
    + intros _. by eexists.
  - intros t Ht. pose proof (Forall_inv Ht) as Hrow. simpl in Hrow. subst t.
    by rewrite decide_True.
  - intros e. case_decide; [done|]. by intros [= <-].
Qed.

Lemma np_sum_axis1_all (v : ndarray) (t : Z) :
  Forall (λ x, x = t) (np_sum_axis1 v) ↔ Forall (λ row, Int64.wrap (Zsum row) = t) v.
Proof.
  unfold np_sum_axis1. rewrite Forall_fmap. apply Forall_proper; [|done].
  intros row. simpl. by rewrite py_sum_wrap.
Qed.

Lemma wrapped_totals_exact (v : ndarray) (t : Z) :
  Forall (λ row, Int64.in_range (Zsum row)) v →
  Forall (λ row, Int64.wrap (Zsum row) = t) v ↔ Forall (λ row, Zsum row = t) v.
Proof.
  intros Hfit. rewrite !Forall_forall. rewrite Forall_forall in Hfit.
  split; intros Hall row Hrow; specialize (Hall row Hrow);
    by rewrite Int64Facts.wrap_in_range in * by by apply Hfit.
Qed.

(** C6, as stated, fails on int64 values: [np.sum] wraps around, and row
    totals that differ by a multiple of 2^64 pass for equal.  The rows
    [1, 0, 0] and [2^63 - 1, 2^63 - 1, 3] have no negative entry and the
    totals 1 and 2^64 + 1; [verify_normalized] raises nothing and returns 1. *)
Lemma verify_normalized_accepts_unequal_totals :
  int64_array [[1; 0; 0]; [2 ^ 63 - 1; 2 ^ 63 - 1; 3]]
  ∧ Zsum [1; 0; 0] = 1
  ∧ Zsum [2 ^ 63 - 1; 2 ^ 63 - 1; 3] = 2 ^ 64 + 1
  ∧ verify_normalized (ValuationMatrix_init [[1; 0; 0]; [2 ^ 63 - 1; 2 ^ 63 - 1; 3]])
    = Ok 1.
Proof.
  split_and!; [split| | |]; try reflexivity.
  - intros r r' Hr Hr'. set_unfold.
    by destruct Hr as [->|[->|[]]], Hr' as [->|[->|[]]].
  - repeat constructor; by vm_compute.
Qed.

(** C6, amended.  On an int64 table with at least one row,
    [verify_normalized] compares the row totals modulo 2^64 (in two's
    complement): it raises exactly when these are not all equal, the error
    it raises is the normalization error, and it returns their common
    value otherwise.  When every row total fits in 64 bits the same holds
    of the totals themselves: it raises exactly when the row totals are
    not all equal, and returns the common total when they are. *)
Theorem verify_normalized_spec (self : ValuationMatrix) :
  int64_array (_v self) → _v self ≠ [] →
  (((∃ e, verify_normalized self = Raise e)
      ↔ ¬ ∃ t, Forall (λ row, Int64.wrap (Zsum row) = t) (_v self))
   ∧ (∀ t, Forall (λ row, Int64.wrap (Zsum row) = t) (_v self) →
        verify_normalized self = Ok t)
   ∧ (∀ e, verify_normalized self = Raise e → e = ValueError_not_normalized))
  ∧ (Forall (λ row, Int64.in_range (Zsum row)) (_v self) →
       ((∃ e, verify_normalized self = Raise e)
          ↔ ¬ ∃ t, Forall (λ row, Zsum row = t) (_v self))
       ∧ (∀ t, Forall (λ row, Zsum row = t) (_v self) → verify_normalized self = Ok t)).
Proof.
  intros _ Hne.
  destruct (verify_normalized_totals self Hne) as (Hraise & Hok & Hexn).
  assert (((∃ e, verify_normalized self = Raise e)
             ↔ ¬ ∃ t, Forall (λ row, Int64.wrap (Zsum row) = t) (_v self))
          ∧ (∀ t, Forall (λ row, Int64.wrap (Zsum row) = t) (_v self) →
               verify_normalized self = Ok t)) as [Hraise' Hok'].
  { split.
    - rewrite Hraise. by setoid_rewrite np_sum_axis1_all.
    - intros t Ht. by apply Hok, np_sum_axis1_all. }
  split; [done|]. intros Hfit. split.
  - rewrite Hraise'. by setoid_rewrite (wrapped_totals_exact _ _ Hfit).
  - intros t Ht. by apply Hok', wrapped_totals_exact.
Qed.

Lemma verify_normalized_spec_witness :
  verify_normalized (ValuationMatrix_init [[3; 3]; [2; 4]]) = Ok 6.
Proof.
  assert (int64_array (_v (ValuationMatrix_init [[3; 3]; [2; 4]]))) as Hint.
  { split.
    - intros r r' Hr Hr'. set_unfold.
      by destruct Hr as [->|[->|[]]], Hr' as [->|[->|[]]].
    - repeat constructor; by vm_compute. }
  destruct (verify_normalized_spec (ValuationMatrix_init [[3; 3]; [2; 4]]) Hint)
    as [_ Hexact]; [done|].
  destruct Hexact as [_ Hok]; [repeat constructor; by vm_compute|].
  apply Hok. by repeat constructor.
Defined.

(** ** normalize *)

Lemma Int64_lcm_exact (a b : Z) :
  0 < a → 0 < b → Z.lcm a b ≤ Int64.max_signed → Int64.lcm a b = Z.lcm a b.
Proof.
  intros Ha Hb Hfit. unfold Int64.lcm; cbv zeta.
  rewrite !Z.abs_eq by lia.
  pose proof (Z.gcd_nonneg a b) as Hg.
  assert (Z.gcd a b ≠ 0) as Hg0 by (rewrite Z.gcd_eq_0; lia).
  rewrite decide_False by done.
  assert (a `div` Z.gcd a b * b = Z.lcm a b) as ->.
  { rewrite Z.gcd_div_swap. unfold Z.lcm. rewrite Z.abs_eq; [done|].
    apply Z.mul_nonneg_nonneg; [lia|]. apply Z.div_pos; lia. }
  apply Int64Facts.wrap_in_range. pose proof (Z.lcm_nonneg a b).
  unfold Int64.in_range, Int64.min_signed. lia.
Qed.

Lemma Zlcm_pos (a b : Z) : 0 < a → 0 < b → 0 < Z.lcm a b.
Proof.
  intros Ha Hb. pose proof (Z.lcm_nonneg a b).
  assert (Z.lcm a b ≠ 0); [|lia]. rewrite Z.lcm_eq_0. lia.
Qed.

Lemma foldl_lcm_pos (ts : list Z) (acc : Z) :
  0 < acc → Forall (λ t, 0 < t) ts →
  0 < foldl Z.lcm acc ts ∧ (acc | foldl Z.lcm acc ts)
  ∧ Forall (λ t, (t | foldl Z.lcm acc ts)) ts.
Proof.
  intros Hacc Hts. revert acc Hacc.
  induction Hts as [|t ts Ht _ IH]; intros acc Hacc; simpl.
  - by split_and!.
  - destruct (IH (Z.lcm acc t)) as (Hpos & Hdiv & Hall); [by apply Zlcm_pos|].
    split_and!; [done| |constructor; [|done]].
    + etrans; [apply Z.divide_lcm_l|done].
    + etrans; [apply Z.divide_lcm_r|done].
Qed.

Lemma foldl_lcm_exact (ts : list Z) (acc : Z) :
  0 < acc → Forall (λ t, 0 < t) ts →
  foldl Z.lcm acc ts ≤ Int64.max_signed →
  foldl Int64.lcm acc ts = foldl Z.lcm acc ts.
Proof.
  intros Hacc Hts. revert acc Hacc.
  induction Hts as [|t ts Ht Hts IH]; intros acc Hacc Hfit; simpl in *; [done|].
  destruct (foldl_lcm_pos ts (Z.lcm acc t)) as (Hpos & Hdiv & _);
    [by apply Zlcm_pos|done|].
  rewrite Int64_lcm_exact; [by apply IH; [apply Zlcm_pos|]|done..|].
  apply Z.divide_pos_le in Hdiv; lia.
Qed.

Lemma foldl_lcm_same (ts : list Z) (L : Z) :
  0 < L ≤ Int64.max_signed → Forall (λ t, t = L) ts → foldl Int64.lcm L ts = L.
Proof.
  intros HL. induction 1 as [|t ts -> _ IH]; simpl; [done|].
  rewrite Int64_lcm_exact; rewrite ?Z.lcm_diag, ?Z.abs_eq; lia || done.
Qed.

Lemma Zsum_scaled_mod (row : list Z) (f : Z) :
  Zsum ((λ x, Int64.mul x f) <$> row) `mod` 2 ^ 64 = (Zsum row * f) `mod` 2 ^ 64.
Proof.
  induction row as [|x row IH]; csimpl; [done|].
  rewrite Zplus_mod, IH. unfold Int64.mul. rewrite Int64Facts.wrap_mod.
  rewrite <-Zplus_mod. f_equal. lia.
Qed.

Lemma py_sum_scaled (row : list Z) (f : Z) :
  py_sum ((λ x, Int64.mul x f) <$> row) = Int64.wrap (py_sum row * f).
Proof.
  rewrite !py_sum_wrap, Int64Facts.wrap_mul_l.
  apply Int64Facts.wrap_congr, Zsum_scaled_mod.
Qed.

Lemma floor_divide_exact (L t : Z) :
  0 < t → 0 < L ≤ Int64.max_signed → (t | L) →
  Int64.wrap (t * Int64.floor_divide L t) = L.
Proof.
  intros Ht HL Hdiv. unfold Int64.floor_divide. rewrite decide_False by lia.
  assert (0 < L `div` t ≤ L) as Hq.
  { destruct Hdiv as [q ->]. rewrite Z.div_mul by lia. nia. }
  rewrite (Int64Facts.wrap_in_range (L `div` t))
    by (unfold Int64.in_range, Int64.min_signed in *; lia).
  rewrite <-Z.divide_div_mul_exact, Z.mul_comm, Z.div_mul by (done || lia).
  apply Int64Facts.wrap_in_range. unfold Int64.in_range, Int64.min_signed in *. lia.
Qed.

Lemma scale_by_one (v : ndarray) (fs : list Z) :
  Forall (Forall Int64.in_range) v → length fs = length v → Forall (λ f, f = 1) fs →
  zip_with (λ (row : list Z) (f : Z), (λ x, Int64.mul x f) <$> row) v fs = v.
Proof.
  intros Hv. revert fs. induction Hv as [|row v Hrow _ IH]; intros [|f fs]; try done.
  simpl. intros [= Hlen] [-> Hfs]%Forall_cons. rewrite IH by done. f_equal.
  rewrite <-(list_fmap_id row) at 2. apply Forall_fmap_ext_1.
  eapply Forall_impl; [done|]. intros x Hx. simpl. unfold Int64.mul.
  rewrite Z.mul_1_r. by apply Int64Facts.wrap_in_range.
Qed.

Lemma scaled_in_range (v : ndarray) (fs : list Z) :
  Forall (Forall Int64.in_range)
    (zip_with (λ (row : list Z) (f : Z), (λ x, Int64.mul x f) <$> row) v fs).
Proof.
  revert fs. induction v as [|row v IH]; intros [|f fs]; simpl; try done.
  constructor; [|done]. apply Forall_fmap, Forall_true. intros x.
  apply Int64Facts.wrap_range.
Qed.

Lemma scaled_totals (v : ndarray) (L : Z) :
  0 < L ≤ Int64.max_signed →
  Forall (λ row, 0 < py_sum row ∧ (py_sum row | L)) v →
  Forall (λ t, t = L)
    (np_sum_axis1
       (zip_with (λ (row : list Z) (f : Z), (λ x, Int64.mul x f) <$> row) v
          (Int64.floor_divide L <$> np_sum_axis1 v))).
Proof.
  intros HL. unfold np_sum_axis1. induction 1 as [|row v [Hpos Hdiv] _ IH]; csimpl.
  - constructor.
  - constructor; [|done]. rewrite py_sum_scaled. by apply floor_divide_exact.
Qed.

(** C5, as stated, fails.  On a matrix without agents [normalize] raises
    and [verify_normalized] raises; and when the least common multiple of
    the row totals does not fit in 64 bits, as for the totals 2^32 and
    2^32 + 1, the wrapped product leaves rows with different totals. *)
Lemma normalize_fails_without_agents_or_on_overflow :
  (normalize (ValuationMatrix_init [])).2 = Raise ValueError_empty_reduction
  ∧ verify_normalized (normalize (ValuationMatrix_init [])).1 = Raise IndexError
  ∧ Forall (λ t, 0 < t) (np_sum_axis1 [[2 ^ 32]; [2 ^ 32 + 1]])
  ∧ int64_array [[2 ^ 32]; [2 ^ 32 + 1]]
  ∧ normalize (ValuationMatrix_init [[2 ^ 32]; [2 ^ 32 + 1]])
    = (mkValuationMatrix [[2 ^ 32]; [0]] 2 1, Ok (2 ^ 32))
  ∧ verify_normalized (normalize (ValuationMatrix_init [[2 ^ 32]; [2 ^ 32 + 1]])).1
    = Raise ValueError_not_normalized.
Proof.
  split_and!; try reflexivity.
  - repeat constructor.
  - split.
    + intros r r' Hr Hr'. set_unfold. by destruct Hr as [->|[->|[]]], Hr' as [->|[->|[]]].
    + repeat constructor; by vm_compute.
Qed.

Lemma normalize_fixed (self : ValuationMatrix) (L : Z) :
  Forall (Forall Int64.in_range) (_v self) → _v self ≠ [] →
  0 < L ≤ Int64.max_signed →
  Forall (λ t, t = L) (np_sum_axis1 (_v self)) →
  verify_normalized self = Ok L ∧ normalize self = (self, Ok L).
Proof.
  intros Hrange Hne HL Hall. unfold normalize, verify_normalized.
  assert (np_lcm_reduce (np_sum_axis1 (_v self)) = Ok L
          ∧ py_getitem (np_sum_axis1 (_v self)) 0 = Ok L) as [-> ->].
  { destruct (np_sum_axis1 (_v self)) as [|t ts] eqn:Htotals.
    { destruct (_v self); [done|discriminate]. }
    apply Forall_cons in Hall as [-> Hts]. split; [|done].
    simpl. by rewrite foldl_lcm_same. }
  split; [simpl; by rewrite decide_True|].
  rewrite scale_by_one; [by destruct self|done|..].
  - unfold np_sum_axis1. by rewrite !length_fmap.
  - apply Forall_fmap. eapply Forall_impl; [exact Hall|]. intros s ->. simpl.
    unfold Int64.floor_divide. rewrite decide_False by lia.
    rewrite Z.div_same by lia. done.
Qed.

(** C5, amended.  On an integer matrix with at least one agent, positive
    row totals, and a least common multiple of the totals that fits in 64
    bits: [normalize] returns that multiple, every row total then equals
    it, [verify_normalized] succeeds with it, and a second [normalize]
    leaves the table as it is. *)
Theorem normalize_then_verify_normalized (self : ValuationMatrix) :
  _v self ≠ [] →
  Forall (λ t, 0 < t) (np_sum_axis1 (_v self)) →
  lcm_of_totals (np_sum_axis1 (_v self)) ≤ Int64.max_signed →
  ∃ self',
    normalize self = (self', Ok (lcm_of_totals (np_sum_axis1 (_v self))))
    ∧ Forall (λ t, t = lcm_of_totals (np_sum_axis1 (_v self))) (np_sum_axis1 (_v self'))
    ∧ verify_normalized self' = Ok (lcm_of_totals (np_sum_axis1 (_v self)))
    ∧ normalize self' = (self', Ok (lcm_of_totals (np_sum_axis1 (_v self)))).
Proof.
  intros Hne Hpos Hfit. unfold normalize at 1.
  destruct (np_sum_axis1 (_v self)) as [|t ts] eqn:Htotals.
  { destruct (_v self); [done|discriminate]. }
  simpl in Hfit. apply Forall_cons in Hpos as [Ht Hts].
  destruct (foldl_lcm_pos ts t Ht Hts) as (HL & Hdivt & Hdivts).
  cbn [np_lcm_reduce lcm_of_totals]. rewrite foldl_lcm_exact by done.
  set (L := foldl Z.lcm t ts) in *.
  assert (0 < L ≤ Int64.max_signed) as HLfit by lia.
  assert (Forall (λ row, 0 < py_sum row ∧ (py_sum row | L)) (_v self)) as Hrows.
  { apply (Forall_fmap py_sum (λ s, 0 < s ∧ (s | L))).
    fold (np_sum_axis1 (_v self)). rewrite Htotals.
    constructor; [done|]. rewrite Forall_forall in Hts, Hdivts.
    apply Forall_forall. intros s Hs. split; [by apply Hts|by apply Hdivts]. }
  pose proof (scaled_totals (_v self) L HLfit Hrows) as Hnew.
  rewrite Htotals in Hnew.
  eexists. split; [done|]. cbn [_v].
  split; [done|]. apply normalize_fixed; cbn [_v]; [|
    |done..].
  - apply scaled_in_range.
  - destruct (_v self); [done|discriminate].
Qed.

Lemma normalize_then_verify_normalized_witness :
  ∃ self',
    normalize (ValuationMatrix_init [[1; 1]; [1; 2]]) = (self', Ok 6)
    ∧ Forall (λ t, t = 6) (np_sum_axis1 (_v self'))
    ∧ verify_normalized self' = Ok 6
    ∧ normalize self' = (self', Ok 6).
Proof.
  apply (normalize_then_verify_normalized (ValuationMatrix_init [[1; 1]; [1; 2]])).
  - done.
  - repeat constructor.
  - by vm_compute.
Defined.

(** * Further properties of the code *)

(** ** Indexing and enumeration *)

Lemma position_lt (n : nat) (i : Z) : valid_index n i → (position n i < n)%nat.
Proof. unfold valid_index, position. case_decide; lia. Qed.

Lemma py_getitem_valid {A} (l : list A) (i : Z) :
  valid_index (length l) i →
  ∃ x, l !! position (length l) i = Some x ∧ py_getitem l i = Ok x.
Proof.
  intros Hi. pose proof (position_lt _ _ Hi) as Hlt.
  destruct (lookup_lt_is_Some_2 l _ Hlt) as [x Hx]. exists x. split; [done|].
  unfold py_getitem; cbv zeta. fold (position (length l) i).
  unfold valid_index in Hi.
  rewrite decide_True; [by rewrite Hx|]. case_decide; lia.
Qed.

Lemma py_getitem_invalid {A} (l : list A) (i : Z) :
  ¬ valid_index (length l) i → py_getitem l i = Raise IndexError.
Proof.
  intros Hi. unfold py_getitem; cbv zeta. unfold valid_index in Hi.
  rewrite decide_False; [done|]. case_decide; lia.
Qed.

Lemma np_index_valid (n : nat) (i : Z) :
  valid_index n i → np_index n i = Ok (position n i).
Proof.
  intros Hi. unfold np_index, position; cbv zeta. unfold valid_index in Hi.
  rewrite decide_True; [done|]. case_decide; lia.
Qed.

Lemma np_index_invalid (n : nat) (i : Z) :
  ¬ valid_index n i → np_index n i = Raise IndexError.
Proof.
  intros Hi. unfold np_index; cbv zeta. unfold valid_index in Hi.
  rewrite decide_False; [done|]. case_decide; lia.
Qed.

Lemma wf_matrix_row_length (self : ValuationMatrix) (k : nat) (row : list Z) :
  wf_matrix self → _v self !! k = Some row →
  length row = Z.to_nat (num_of_objects self).
Proof.
  intros [_ Hm] Hrow. rewrite <-(Hm row) by (by eapply list_elem_of_lookup_2). lia.
Qed.

(** X1.  Indexing a matrix: [v[i]] and [v[i, j]] succeed exactly when
    [-num_of_agents <= i < num_of_agents] and
    [-num_of_objects <= j < num_of_objects]; a negative index counts from
    the end, and any other index raises [IndexError]. *)
Theorem getitem_bounds (self : ValuationMatrix) (i j : Z) :
  wf_matrix self →
  (valid_index (Z.to_nat (num_of_agents self)) i →
   valid_index (Z.to_nat (num_of_objects self)) j →
     ∃ row x,
       _v self !! position (Z.to_nat (num_of_agents self)) i = Some row
       ∧ row !! position (Z.to_nat (num_of_objects self)) j = Some x
       ∧ getitem_row self i = Ok row
       ∧ getitem self (i, j) = Ok x)
  ∧ (getitem_row self i = Raise IndexError
       ↔ ¬ valid_index (Z.to_nat (num_of_agents self)) i)
  ∧ (getitem self (i, j) = Raise IndexError
       ↔ ¬ (valid_index (Z.to_nat (num_of_agents self)) i
            ∧ valid_index (Z.to_nat (num_of_objects self)) j)).
Proof.
  intros Hwf. pose proof Hwf as [Hn _]. rewrite Hn, Nat2Z.id.
  assert (valid_index (length (_v self)) i ∨ ¬ valid_index (length (_v self)) i)
    as [Hi|Hi] by (unfold valid_index; lia).
  - destruct (py_getitem_valid (_v self) i Hi) as (row & Hrow & Hget).
    rewrite <-(wf_matrix_row_length self _ row Hwf Hrow).
    unfold getitem_row, getitem. simpl. rewrite Hget. simpl.
    assert (valid_index (length row) j ∨ ¬ valid_index (length row) j)
      as [Hj|Hj] by (unfold valid_index; lia).
    + destruct (py_getitem_valid row j Hj) as (x & Hx & ->).
      split_and!; [by exists row, x|split; [done|tauto]|split; [done|tauto]].
    + rewrite (py_getitem_invalid row j Hj).
      split_and!; [tauto|split; [done|tauto]|split; [tauto|done]].
  - unfold getitem_row, getitem. simpl. rewrite (py_getitem_invalid _ i Hi). simpl.
    split_and!; [tauto|split; [tauto|done]|split; [tauto|done]].
Qed.

Lemma getitem_bounds_witness :
  getitem (ValuationMatrix_init [[1; 4; 7]; [6; 3; 0]]) (-1, -3) = Ok 6
  ∧ getitem (ValuationMatrix_init [[1; 4; 7]; [6; 3; 0]]) (2, 0) = Raise IndexError.
Proof.
  assert (wf_matrix (ValuationMatrix_init [[1; 4; 7]; [6; 3; 0]])) as Hwf.
  { apply ValuationMatrix_init_wf. intros r r' Hr Hr'. set_unfold.
    by destruct Hr as [->|[->|[]]], Hr' as [->|[->|[]]]. }
  split.
  - destruct (getitem_bounds (ValuationMatrix_init [[1; 4; 7]; [6; 3; 0]]) (-1) (-3) Hwf)
      as (Hvalid & _).
    destruct Hvalid as (row & x & Hrow & Hx & _ & ->); [by vm_compute..|].
    injection Hrow as <-. by injection Hx as <-.
  - destruct (getitem_bounds (ValuationMatrix_init [[1; 4; 7]; [6; 3; 0]]) 2 0 Hwf)
      as (_ & _ & Hinvalid).
    apply Hinvalid. intros [[_ Hlt] _]. by vm_compute in Hlt.
Defined.

Lemma mapM_py_getitem_seq {A} (l : list A) (s k : nat) :
  (s + k ≤ length l)%nat →
  mapM (py_getitem l) (Z.of_nat <$> seq s k) = Ok (take k (drop s l)).
Proof.
  revert s. induction k as [|k IH]; intros s Hlen; [done|].
  csimpl. destruct (lookup_lt_is_Some_2 l s) as [x Hx]; [lia|].
  rewrite (py_getitem_lookup _ _ _ Hx). simpl. rewrite IH by lia. simpl.
  rewrite (drop_S l x s Hx). done.
Qed.

Lemma mapM_py_getitem_range {A} (l : list A) :
  mapM (py_getitem l) (range (Z.of_nat (length l))) = Ok l.
Proof.
  unfold range. rewrite Nat2Z.id, mapM_py_getitem_seq by lia.
  by rewrite drop_0, firstn_all.
Qed.

Lemma mapM_result_ext {A B} (f g : A → result B) (l : list A) :
  (∀ x, x ∈ l → f x = g x) → mapM f l = mapM g l.
Proof.
  induction l as [|x l IH]; intros Hfg; [done|]. simpl.
  rewrite (Hfg x) by by left. destruct (g x); simpl; [|done].
  rewrite IH; [done|]. intros y Hy. apply Hfg. by right.
Qed.

(** X2.  Iterating over [agents()] and [objects()] reads the whole table
    back, row by row and entry by entry, without an error. *)
Theorem agents_objects_enumerate_table (self : ValuationMatrix) :
  wf_matrix self →
  mapM (getitem_row self) (agents self) = Ok (_v self)
  ∧ mapM (λ agent, mapM (λ object, getitem self (agent, object)) (objects self))
      (agents self) = Ok (_v self).
Proof.
  intros Hwf. pose proof Hwf as [Hn Hm]. unfold agents, getitem_row. rewrite Hn.
  split; [apply mapM_py_getitem_range|].
  etrans; [|apply (mapM_py_getitem_range (_v self))].
  apply mapM_result_ext. intros agent Hagent. unfold getitem. simpl.
  destruct (py_getitem (_v self) agent) as [row|e] eqn:Hrow.
  - simpl. assert (row ∈ _v self) as Hin.
    { unfold py_getitem in Hrow. case_decide; [|done].
      destruct (_ !! _) eqn:Hl; [|done]. injection Hrow as ->.
      by eapply list_elem_of_lookup_2. }
    unfold objects. rewrite <-(Hm row Hin).
    etrans; [|apply (mapM_py_getitem_range row)].
    by apply mapM_result_ext.
  - apply elem_of_range in Hagent.
    destruct (py_getitem_in_range (_v self) agent) as (? & _ & ?); [lia|congruence].
Qed.

Lemma agents_objects_enumerate_table_witness :
  mapM (getitem_row (ValuationMatrix_init [[1; 4; 7]; [6; 3; 0]]))
    (agents (ValuationMatrix_init [[1; 4; 7]; [6; 3; 0]])) = Ok [[1; 4; 7]; [6; 3; 0]].
Proof.
  apply (agents_objects_enumerate_table (ValuationMatrix_init [[1; 4; 7]; [6; 3; 0]])).
  apply ValuationMatrix_init_wf. intros r r' Hr Hr'. set_unfold.
  by destruct Hr as [->|[->|[]]], Hr' as [->|[->|[]]].
Defined.

(** ** Bundle values *)

Lemma wrap_add_r a b : Int64.wrap (a + Int64.wrap b) = Int64.wrap (a + b).
Proof. rewrite (Z.add_comm a), Int64Facts.wrap_add_l. f_equal. lia. Qed.

Lemma Zsum_app (l1 l2 : list Z) : Zsum (l1 ++ l2) = Zsum l1 + Zsum l2.
Proof. induction l1 as [|x l1 IH]; simpl; [done|]. rewrite IH. lia. Qed.

Lemma Zsum_perm (l1 l2 : list Z) : l1 ≡ₚ l2 → Zsum l1 = Zsum l2.
Proof. induction 1; simpl; lia. Qed.

Lemma py_sum_app (l1 l2 : list Z) :
  py_sum (l1 ++ l2) = Int64.add (py_sum l1) (py_sum l2).
Proof.
  rewrite !py_sum_wrap, Zsum_app. unfold Int64.add.
  by rewrite Int64Facts.wrap_add_l, wrap_add_r.
Qed.

Lemma py_sum_perm (l1 l2 : list Z) : l1 ≡ₚ l2 → py_sum l1 = py_sum l2.
Proof. intros H. by rewrite !py_sum_wrap, (Zsum_perm _ _ H). Qed.

Lemma mapM_result_app {A B} (f : A → result B) (l1 l2 : list A) :
  mapM f (l1 ++ l2) = v1 ← mapM f l1; v2 ← mapM f l2; Ok (v1 ++ v2).
Proof.
  induction l1 as [|x l1 IH]; simpl.
  - by destruct (mapM f l2).
  - destruct (f x) as [y|e]; simpl; [|done]. rewrite IH.
    destruct (mapM f l1) as [v1|e]; simpl; [|done].
    by destruct (mapM f l2).
Qed.

(** The outcome of [mapM] when the function can raise one exception only:
    the list of results, or that exception. *)
Lemma mapM_result_cases {A} (f : A → result Z) (e0 : exn) (l : list A) :
  (∀ x e, f x = Raise e → e = e0) →
  (Forall (λ x, ∃ y, f x = Ok y) l
   ∧ mapM f l = Ok ((λ x, match f x with Ok y => y | Raise _ => 0 end) <$> l))
  ∨ (¬ Forall (λ x, ∃ y, f x = Ok y) l ∧ mapM f l = Raise e0).
Proof.
  intros Hf. induction l as [|x l IH]; [left; by split|]. simpl.
  destruct (f x) as [y|e] eqn:Hx; simpl.
  - destruct IH as [[Hall ->]|[Hnot ->]]; simpl.
    + left. split; [constructor; eauto|]. csimpl. by rewrite ?Hx.
    + right. split; [|done]. by intros [_ ?]%Forall_cons.
  - right. split; [|by rewrite (Hf x e Hx)].
    intros [[y Hy] _]%Forall_cons. congruence.
Qed.

Lemma entry_Raise (self : ValuationMatrix) (agent object : Z) (e : exn) :
  (row ← py_getitem (_v self) agent; py_getitem row object) = Raise e → e = IndexError.
Proof.
  destruct (py_getitem (_v self) agent) as [row|e'] eqn:Hrow; simpl.
  - apply py_getitem_Raise.
  - intros [= <-]. by eapply py_getitem_Raise.
Qed.

(** X3.  On an int64 table the value of a bundle does not depend on the
    order in which its objects are listed (the outcome is the same, error
    included): the values are added modulo 2^64, and this addition is
    associative and commutative.  Floating-point addition is not, and a
    table of floats is not covered. *)
Theorem agent_value_for_bundle_permutation (self : ValuationMatrix) (agent : Z)
    (bundle1 bundle2 : list Z) :
  int64_array (_v self) →
  bundle1 ≡ₚ bundle2 →
  agent_value_for_bundle self agent (Some bundle1)
  = agent_value_for_bundle self agent (Some bundle2).
Proof.
  intros _ Hperm. unfold agent_value_for_bundle.
  set (f := λ object : Z, py_getitem (_v self) agent ≫= _).
  assert (∀ x e, f x = Raise e → e = IndexError) as Hf
    by (intros x e; apply entry_Raise).
  destruct (mapM_result_cases f IndexError bundle1 Hf) as [[H1 ->]|[H1 ->]];
    destruct (mapM_result_cases f IndexError bundle2 Hf) as [[H2 ->]|[H2 ->]]; simpl.
  - f_equal. apply py_sum_perm. by apply fmap_Permutation.
  - destruct H2. by rewrite <-Hperm.
  - destruct H1. by rewrite Hperm.
  - done.
Qed.

Lemma agent_value_for_bundle_permutation_witness :
  agent_value_for_bundle (ValuationMatrix_init [[1; 4; 7]; [6; 3; 0]]) 1 (Some [1; 0; 2])
  = agent_value_for_bundle (ValuationMatrix_init [[1; 4; 7]; [6; 3; 0]]) 1 (Some [2; 0; 1]).
Proof.
  apply (agent_value_for_bundle_permutation
           (ValuationMatrix_init [[1; 4; 7]; [6; 3; 0]]) 1 [1; 0; 2] [2; 0; 1]).
  { split.
    - intros r r' Hr Hr'. set_unfold.
      by destruct Hr as [->|[->|[]]], Hr' as [->|[->|[]]].
    - repeat constructor; by vm_compute. }
  etrans; [apply Permutation_swap|]. simpl.
  etrans; [apply perm_skip, Permutation_swap|]. apply Permutation_swap.
Defined.

(** X4.  Values are additive: the value of the concatenation of two
    bundles is the int64 sum of their values, and their exact sum when
    that fits in 64 bits; an object listed twice counts twice. *)
Theorem agent_value_for_bundle_app (self : ValuationMatrix) (agent : Z)
    (bundle1 bundle2 : list Z) (x1 x2 : Z) :
  agent_value_for_bundle self agent (Some bundle1) = Ok x1 →
  agent_value_for_bundle self agent (Some bundle2) = Ok x2 →
  agent_value_for_bundle self agent (Some (bundle1 ++ bundle2)) = Ok (Int64.add x1 x2)
  ∧ (Int64.in_range (x1 + x2) →
       agent_value_for_bundle self agent (Some (bundle1 ++ bundle2)) = Ok (x1 + x2)).
Proof.
  unfold agent_value_for_bundle. set (f := λ object : Z, py_getitem (_v self) agent ≫= _).
  rewrite mapM_result_app.
  destruct (mapM f bundle1) as [v1|]; simpl; [|done].
  destruct (mapM f bundle2) as [v2|]; simpl; [|done].
  intros [= <-] [= <-]. rewrite py_sum_app. split; [done|].
  intros Hfit. unfold Int64.add. by rewrite Int64Facts.wrap_in_range.
Qed.

Lemma agent_value_for_bundle_app_witness :
  agent_value_for_bundle (ValuationMatrix_init [[1; 4; 7]; [6; 3; 0]]) 0
    (Some ([0; 2] ++ [1])) = Ok (8 + 4).
Proof.
  apply (agent_value_for_bundle_app
           (ValuationMatrix_init [[1; 4; 7]; [6; 3; 0]]) 0 [0; 2] [1] 8 4);
    [reflexivity..|by vm_compute].
Defined.

(** X5.  Errors of [agent_value_for_bundle]: for the empty bundle the
    result is 0 whatever the agent index is; for a non-empty bundle an
    agent index out of range raises [IndexError]; for a valid agent the
    call succeeds exactly when every object index is in range, and raises
    [IndexError] otherwise. *)
Theorem agent_value_for_bundle_errors (self : ValuationMatrix) (agent : Z)
    (bundle : list Z) :
  wf_matrix self →
  agent_value_for_bundle self agent (Some []) = Ok 0
  ∧ (bundle ≠ [] → ¬ valid_index (Z.to_nat (num_of_agents self)) agent →
       agent_value_for_bundle self agent (Some bundle) = Raise IndexError)
  ∧ (valid_index (Z.to_nat (num_of_agents self)) agent →
       ((∃ x, agent_value_for_bundle self agent (Some bundle) = Ok x)
          ↔ Forall (valid_index (Z.to_nat (num_of_objects self))) bundle)
       ∧ (agent_value_for_bundle self agent (Some bundle) = Raise IndexError
          ↔ ¬ Forall (valid_index (Z.to_nat (num_of_objects self))) bundle)).
Proof.
  intros Hwf. pose proof Hwf as [Hn _]. rewrite Hn, Nat2Z.id.
  unfold agent_value_for_bundle. set (f := λ object : Z, py_getitem (_v self) agent ≫= _).
  assert (∀ x e, f x = Raise e → e = IndexError) as Hf
    by (intros x e; apply entry_Raise).
  split_and!; [done| |].
  - intros Hne Hagent. destruct bundle as [|o bundle]; [done|].
    unfold f. simpl. rewrite (py_getitem_invalid _ agent Hagent). reflexivity.
  - intros Hagent.
    destruct (py_getitem_valid (_v self) agent Hagent) as (row & Hrow & Hget).
    pose proof (wf_matrix_row_length self _ row Hwf Hrow) as Hlen.
    assert (∀ o, (∃ y, f o = Ok y) ↔ valid_index (Z.to_nat (num_of_objects self)) o)
      as Hiff.
    { intros o. unfold f. rewrite Hget. simpl. rewrite <-Hlen. split.
      - intros [y Hy].
        assert (valid_index (length row) o ∨ ¬ valid_index (length row) o)
          as [?|Ho] by (unfold valid_index; lia); [done|].
        by rewrite (py_getitem_invalid row o Ho) in Hy.
      - intros Ho. destruct (py_getitem_valid row o Ho) as (y & _ & ?). by exists y. }
    assert (Forall (λ x, ∃ y, f x = Ok y) bundle
            ↔ Forall (valid_index (Z.to_nat (num_of_objects self))) bundle) as Hall.
    { rewrite !Forall_forall. split; intros H o Ho; apply Hiff; by apply H. }
    rewrite <-Hall.
    destruct (mapM_result_cases f IndexError bundle Hf) as [[H1 ->]|[H1 ->]]; simpl.
    + split; split; try done. by eexists.
    + split; split; try done. by intros [? ?].
Qed.

Lemma agent_value_for_bundle_errors_witness :
  agent_value_for_bundle (ValuationMatrix_init [[1; 4; 7]; [6; 3; 0]]) 5 (Some []) = Ok 0
  ∧ agent_value_for_bundle (ValuationMatrix_init [[1; 4; 7]; [6; 3; 0]]) 5 (Some [0])
    = Raise IndexError.
Proof.
  assert (wf_matrix (ValuationMatrix_init [[1; 4; 7]; [6; 3; 0]])) as Hwf.
  { apply ValuationMatrix_init_wf. intros r r' Hr Hr'. set_unfold.
    by destruct Hr as [->|[->|[]]], Hr' as [->|[->|[]]]. }
  destruct (agent_value_for_bundle_errors
              (ValuationMatrix_init [[1; 4; 7]; [6; 3; 0]]) 5 [0] Hwf)
    as (Hempty & Hagent & _).
  split; [exact Hempty|]. apply Hagent; [done|].
  intros [_ Hlt]. by vm_compute in Hlt.
Defined.

(** ** Removing an agent or an object *)

Lemma rectangular_wf (a : ndarray) (m : Z) :
  a ≠ [] → (∀ row, row ∈ a → Z.of_nat (length row) = m) →
  wf_matrix (ValuationMatrix_init a) ∧ num_of_objects (ValuationMatrix_init a) = m.
Proof.
  intros Hne Hlen. destruct a as [|r a]; [done|].
  assert (num_of_objects (ValuationMatrix_init (r :: a)) = m) as Hm.
  { unfold ValuationMatrix_init. cbn [num_of_objects].
    rewrite decide_False by (simpl; lia). apply Hlen. by left. }
  split; [|done]. split; [done|]. rewrite Hm. apply Hlen.
Qed.

(** X6.  [without_agent] on a valid index returns a matrix with that row
    deleted and one agent fewer; the number of objects is kept, except
    that removing the only agent leaves a matrix with 0 objects.  An index
    out of range raises [IndexError]. *)
Theorem without_agent_spec (self : ValuationMatrix) (agent : Z) :
  wf_matrix self →
  (valid_index (Z.to_nat (num_of_agents self)) agent →
     ∃ m', without_agent self agent = Ok m'
       ∧ _v m' = delete (position (Z.to_nat (num_of_agents self)) agent) (_v self)
       ∧ num_of_agents m' = num_of_agents self - 1
       ∧ num_of_objects m'
         = (if decide (num_of_agents self = 1) then 0 else num_of_objects self)
       ∧ wf_matrix m')
  ∧ (¬ valid_index (Z.to_nat (num_of_agents self)) agent →
       without_agent self agent = Raise IndexError).
Proof.
  intros Hwf. pose proof Hwf as [Hn Hm]. rewrite Hn, Nat2Z.id.
  unfold without_agent. split.
  - intros Hagent. rewrite (np_index_valid _ _ Hagent). simpl.
    pose proof (position_lt _ _ Hagent) as Hlt.
    set (k := position (length (_v self)) agent) in *.
    eexists. split; [done|]. split; [done|].
    assert (length (delete k (_v self)) = (length (_v self) - 1)%nat) as Hlen.
    { apply length_delete. by apply lookup_lt_is_Some_2. }
    split; [simpl; lia|].
    destruct (decide (Z.of_nat (length (_v self)) = 1)) as [Hone|Hmore].
    + assert (delete k (_v self) = []) as -> by (apply nil_length_inv; lia).
      split; [done|]. split; [done|]. by intros row ?%elem_of_nil.
    + destruct (rectangular_wf (delete k (_v self)) (num_of_objects self)) as [? ?].
      * intros Hnil. rewrite Hnil in Hlen. simpl in Hlen. lia.
      * intros row Hrow%list_elem_of_delete_inv. by apply Hm.
      * by split.
  - intros Hagent. by rewrite (np_index_invalid _ _ Hagent).
Qed.

Lemma without_agent_spec_witness :
  without_agent (ValuationMatrix_init [[1; 4; 7]; [6; 3; 0]]) (-1)
    = Ok (ValuationMatrix_init [[1; 4; 7]])
  ∧ without_agent (ValuationMatrix_init [[1; 4; 7]; [6; 3; 0]]) 2 = Raise IndexError.
Proof.
  assert (wf_matrix (ValuationMatrix_init [[1; 4; 7]; [6; 3; 0]])) as Hwf.
  { apply ValuationMatrix_init_wf. intros r r' Hr Hr'. set_unfold.
    by destruct Hr as [->|[->|[]]], Hr' as [->|[->|[]]]. }
  split; [reflexivity|].
  apply (without_agent_spec (ValuationMatrix_init [[1; 4; 7]; [6; 3; 0]]) 2 Hwf).
  intros [_ Hlt]. by vm_compute in Hlt.
Defined.

Lemma Zsum_delete (row : list Z) (k : nat) (x : Z) :
  row !! k = Some x → Zsum row = Zsum (delete k row) + x.
Proof.
  intros Hx. rewrite <-(take_drop_middle row k x Hx) at 1.
  rewrite delete_take_drop, !Zsum_app. simpl. lia.
Qed.

(** X7.  [without_object] on a matrix with agents and a valid index
    returns a matrix with that column deleted from every row: the agents
    are kept, there is one object fewer, and every agent's total drops by
    its value for the removed object.  An index out of range raises
    [IndexError]. *)
Theorem without_object_spec (self : ValuationMatrix) (object : Z) :
  wf_matrix self → _v self ≠ [] →
  (valid_index (Z.to_nat (num_of_objects self)) object →
     ∃ m', without_object self object = Ok m'
       ∧ _v m' = delete (position (Z.to_nat (num_of_objects self)) object) <$> _v self
       ∧ num_of_agents m' = num_of_agents self
       ∧ num_of_objects m' = num_of_objects self - 1
       ∧ wf_matrix m'
       ∧ Forall2 (λ row row', ∃ x,
                    row !! position (Z.to_nat (num_of_objects self)) object = Some x
                    ∧ py_sum row = Int64.add (py_sum row') x)
           (_v self) (_v m'))
  ∧ (¬ valid_index (Z.to_nat (num_of_objects self)) object →
       without_object self object = Raise IndexError).
Proof.
  intros Hwf Hne. pose proof Hwf as [Hn Hm]. unfold without_object. split.
  - intros Hobject. rewrite (np_index_valid _ _ Hobject). simpl.
    pose proof (position_lt _ _ Hobject) as Hlt.
    set (k := position _ object) in *.
    assert (∀ row, row ∈ _v self → ∃ x, row !! k = Some x
              ∧ Z.of_nat (length (delete k row)) = num_of_objects self - 1) as Hrows.
    { intros row Hrow. pose proof (Hm row Hrow) as Hlen.
      destruct (lookup_lt_is_Some_2 row k) as [x Hx]; [lia|].
      exists x. split; [done|]. rewrite length_delete by (by eexists).
      apply lookup_lt_Some in Hx. lia. }
    destruct (rectangular_wf (delete k <$> _v self) (num_of_objects self - 1))
      as [Hwf' Hm'].
    { by destruct (_v self). }
    { intros row' (row & -> & Hrow)%list_elem_of_fmap.
      by destruct (Hrows row Hrow) as (x & _ & ?). }
    eexists. split; [done|]. split_and!; [done| |done..|].
    + simpl. by rewrite length_fmap.
    + simpl. apply Forall2_fmap_r, Forall_Forall2_diag, Forall_forall.
      intros row Hrow. destruct (Hrows row Hrow) as (x & Hx & _).
      exists x. split; [done|]. rewrite !py_sum_wrap, (Zsum_delete row k x Hx).
      unfold Int64.add. by rewrite Int64Facts.wrap_add_l.
  - intros Hobject. by rewrite (np_index_invalid _ _ Hobject).
Qed.

Lemma without_object_spec_witness :
  without_object (ValuationMatrix_init [[1; 4; 7]; [6; 3; 0]]) 1
    = Ok (ValuationMatrix_init [[1; 7]; [6; 0]])
  ∧ without_object (ValuationMatrix_init [[1; 4; 7]; [6; 3; 0]]) 3 = Raise IndexError.
Proof.
  assert (wf_matrix (ValuationMatrix_init [[1; 4; 7]; [6; 3; 0]])) as Hwf.
  { apply ValuationMatrix_init_wf. intros r r' Hr Hr'. set_unfold.
    by destruct Hr as [->|[->|[]]], Hr' as [->|[->|[]]]. }
  split; [reflexivity|].
  apply (without_object_spec (ValuationMatrix_init [[1; 4; 7]; [6; 3; 0]]) 3 Hwf);
    [done|].
  intros [_ Hlt]. by vm_compute in Hlt.
Defined.

(** ** submatrix *)

Lemma mapM_np_index_valid (n : nat) (l : list Z) :
  Forall (valid_index n) l → mapM (np_index n) l = Ok (position n <$> l).
Proof.
  induction 1 as [|i l Hi _ IH]; [done|]. simpl.
  rewrite (np_index_valid _ _ Hi). simpl. by rewrite IH.
Qed.

Lemma mapM_np_index_invalid (n : nat) (l : list Z) :
  ¬ Forall (valid_index n) l → mapM (np_index n) l = Raise IndexError.
Proof.
  intros Hl.
  assert (∀ i e, (z ← np_index n i; Ok (Z.of_nat z)) = Raise e → e = IndexError) as Hf.
  { intros i e. unfold np_index; cbv zeta. case_decide; simpl; congruence. }
  induction l as [|i l IH]; [by destruct Hl|]. simpl.
  assert (valid_index n i ∨ ¬ valid_index n i) as [Hi|Hi]
    by (unfold valid_index; lia).
  - rewrite (np_index_valid _ _ Hi). simpl. rewrite IH; [done|].
    intros Hall. apply Hl. by constructor.
  - by rewrite (np_index_invalid _ _ Hi).
Qed.

Lemma submatrix_valid (self : ValuationMatrix) (agents objects : list Z) :
  Forall (valid_index (length (_v self))) agents →
  Forall (valid_index (Z.to_nat (num_of_objects self))) objects →
  submatrix self agents objects
  = Ok (ValuationMatrix_init
          ((λ i : nat,
              (λ j : nat, (_v self !!! i) !!! j)
                <$> (position (Z.to_nat (num_of_objects self)) <$> objects))
             <$> (position (length (_v self)) <$> agents))).
Proof.
  intros Hagents Hobjects. unfold submatrix. case_decide as Hempty.
  - do 2 f_equal. destruct Hempty as [->| ->]; [done|]. csimpl.
    by rewrite <-list_fmap_compose.
  - rewrite (mapM_np_index_valid _ _ Hagents). simpl.
    by rewrite (mapM_np_index_valid _ _ Hobjects).
Qed.

Lemma submatrix_nonempty (self : ValuationMatrix) (agents objects : list Z) :
  agents ≠ [] → objects ≠ [] →
  submatrix self agents objects
  = (rows ← mapM (np_index (length (_v self))) agents;
     cols ← mapM (np_index (Z.to_nat (num_of_objects self))) objects;
     Ok (ValuationMatrix_init
           ((λ i, (λ j, (_v self !!! i) !!! j) <$> cols) <$> rows))).
Proof.
  intros Hagents Hobjects. unfold submatrix. rewrite decide_False; [done|].
  by intros [?|?].
Qed.

(** X8.  [submatrix] with valid indices returns a matrix with one row per
    listed agent and one column per listed object whose entry at [(a, b)]
    is the entry of the original at the [a]-th listed agent and the [b]-th
    listed object; with non-empty lists and some index out of range it
    raises [IndexError]. *)
Theorem submatrix_spec (self : ValuationMatrix) (agents objects : list Z) :
  wf_matrix self → _v self ≠ [] →
  (Forall (valid_index (Z.to_nat (num_of_agents self))) agents →
   Forall (valid_index (Z.to_nat (num_of_objects self))) objects →
     ∃ m', submatrix self agents objects = Ok m'
       ∧ num_of_agents m' = Z.of_nat (length agents)
       ∧ (agents ≠ [] → num_of_objects m' = Z.of_nat (length objects))
       ∧ (∀ (a b : nat) (i j : Z),
            agents !! a = Some i → objects !! b = Some j →
            getitem m' (Z.of_nat a, Z.of_nat b) = getitem self (i, j)))
  ∧ (agents ≠ [] → objects ≠ [] →
     ¬ (Forall (valid_index (Z.to_nat (num_of_agents self))) agents
        ∧ Forall (valid_index (Z.to_nat (num_of_objects self))) objects) →
       submatrix self agents objects = Raise IndexError).
Proof.
  intros Hwf Hne. pose proof Hwf as [Hn Hm]. rewrite Hn, Nat2Z.id.
  split.
  - intros Hagents Hobjects.
    rewrite (submatrix_valid _ _ _ Hagents Hobjects).
    eexists. split; [done|]. split_and!.
    + simpl. by rewrite !length_fmap.
    + intros Hagents'. destruct agents as [|i agents]; [done|].
      unfold ValuationMatrix_init. cbn [num_of_objects].
      rewrite decide_False by (simpl; lia). csimpl. by rewrite !length_fmap.
    + intros a b i j Hi Hj. unfold getitem. simpl.
      rewrite Forall_forall in Hagents. rewrite Forall_forall in Hobjects.
      pose proof (Hagents i (list_elem_of_lookup_2 _ _ _ Hi)) as Hvi.
      pose proof (Hobjects j (list_elem_of_lookup_2 _ _ _ Hj)) as Hvj.
      destruct (py_getitem_valid (_v self) i Hvi) as (row & Hrow & ->). simpl.
      rewrite <-(wf_matrix_row_length self _ row Hwf Hrow) in Hvj.
      destruct (py_getitem_valid row j Hvj) as (x & Hx & ->).
      rewrite (wf_matrix_row_length self _ row Hwf Hrow) in Hx.
      set (cols := position (Z.to_nat (num_of_objects self)) <$> objects).
      set (k := position (length (_v self)) i) in *.
      assert (((λ i0 : nat, (λ j0 : nat, (_v self !!! i0) !!! j0) <$> cols)
                 <$> (position (length (_v self)) <$> agents)) !! a
              = Some ((λ j0 : nat, (_v self !!! k) !!! j0) <$> cols)) as Ha.
      { by rewrite !list_lookup_fmap, Hi. }
      rewrite (py_getitem_lookup _ _ _ Ha). simpl.
      assert (((λ j0 : nat, (_v self !!! k) !!! j0) <$> cols) !! b = Some x) as Hb.
      { unfold cols. rewrite !list_lookup_fmap, Hj. simpl. f_equal.
        rewrite (list_lookup_total_correct _ _ _ Hrow).
        by apply list_lookup_total_correct. }
      by rewrite (py_getitem_lookup _ _ _ Hb).
  - intros Hagents' Hobjects' Hinvalid.
    rewrite (submatrix_nonempty _ _ _ Hagents' Hobjects').
    assert (Forall (valid_index (length (_v self))) agents
            ∨ ¬ Forall (valid_index (length (_v self))) agents) as [Hagents|Hagents].
    { destruct (decide (Forall (λ i, - Z.of_nat (length (_v self)) ≤ i
                                      < Z.of_nat (length (_v self))) agents)); tauto. }
    + rewrite (mapM_np_index_valid _ _ Hagents). simpl.
      rewrite (mapM_np_index_invalid _ objects); [reflexivity|tauto].
    + by rewrite (mapM_np_index_invalid _ agents Hagents).
Qed.

Lemma submatrix_spec_witness :
  ∃ m', submatrix (ValuationMatrix_init [[1; 4; 7]; [6; 3; 0]]) [1] [2; 0] = Ok m'
    ∧ getitem m' (0, 1) = getitem (ValuationMatrix_init [[1; 4; 7]; [6; 3; 0]]) (1, 0).
Proof.
  assert (wf_matrix (ValuationMatrix_init [[1; 4; 7]; [6; 3; 0]])) as Hwf.
  { apply ValuationMatrix_init_wf. intros r r' Hr Hr'. set_unfold.
    by destruct Hr as [->|[->|[]]], Hr' as [->|[->|[]]]. }
  destruct (submatrix_spec (ValuationMatrix_init [[1; 4; 7]; [6; 3; 0]]) [1] [2; 0] Hwf)
    as [Hvalid _]; [done|].
  destruct Hvalid as (m' & Hm' & _ & _ & Hentries).
  { repeat constructor; by vm_compute. }
  { repeat constructor; by vm_compute. }
  exists m'. split; [done|]. by apply (Hentries 0%nat 1%nat 1 0).
Defined.





(** ** Ordered and normalized matrices under removal *)




Lemma verify_ordered_Ok_inv (self : ValuationMatrix) :
  wf_matrix self → verify_ordered self = Ok () →
  ∀ row, row ∈ _v self → nonincreasing row.
Proof.
  intros Hwf HOk row Hrow.
  destruct (verify_ordered_spec self Hwf) as [[_ Hall]|(i & v_i & _ & _ & _ & HRaise)].
  - apply nonincreasing_no_ascent. by apply Hall.
  - congruence.
Qed.



Lemma verify_normalized_Ok_inv (self : ValuationMatrix) (t : Z) :
  verify_normalized self = Ok t → Forall (λ x, x = t) (np_sum_axis1 (_v self)).
Proof.
  unfold verify_normalized; cbv zeta.
  destruct (py_getitem _ 0) as [first|]; simpl; [|done].
  case_decide; [|done]. by intros [= <-].
Qed.

(** X11.  Removing an agent from a normalized matrix leaves it normalized
    with the same total, as long as an agent remains. *)
Theorem verify_normalized_without_agent (self m' : ValuationMatrix) (agent t : Z) :
  verify_normalized self = Ok t → without_agent self agent = Ok m' →
  _v m' ≠ [] → verify_normalized m' = Ok t.
Proof.
  intros Hall%verify_normalized_Ok_inv. unfold without_agent.
  destruct (np_index _ _) as [k|]; simpl; [|done]. intros [= <-]. simpl.
  intros Hne. unfold verify_normalized, np_sum_axis1 in *. simpl.
  rewrite list_fmap_delete.
  pose proof (Forall_delete _ _ k Hall) as Hall'.
  destruct (delete k (py_sum <$> _v self)) as [|first totals] eqn:Hd.
  { rewrite <-list_fmap_delete in Hd. by apply fmap_nil_inv in Hd. }
  change (py_getitem (first :: totals) 0) with (Ok first). simpl.
  pose proof (Forall_inv Hall') as Hfirst. simpl in Hfirst. subst first.
  by rewrite decide_True.
Qed.

Lemma verify_normalized_without_agent_witness :
  verify_normalized (ValuationMatrix_init [[3; 3]; [1; 5]]) = Ok 6.
Proof.
  apply (verify_normalized_without_agent (ValuationMatrix_init [[3; 3]; [2; 4]; [1; 5]])
           (ValuationMatrix_init [[3; 3]; [1; 5]]) 1 6); done.
Defined.

(** ** normalize with a zero total *)

Lemma Int64_lcm_0_r (a : Z) : Int64.lcm a 0 = 0.
Proof.
  unfold Int64.lcm; cbv zeta. case_decide; [done|].
  change (Z.abs 0) with 0. by rewrite Z.mul_0_r.
Qed.

Lemma Int64_lcm_0_l (b : Z) : Int64.lcm 0 b = 0.
Proof.
  unfold Int64.lcm; cbv zeta. case_decide; [done|].
  change (Z.abs 0) with 0. by rewrite Zdiv_0_l, Z.mul_0_l.
Qed.

Lemma foldl_lcm_0 (ts : list Z) : foldl Int64.lcm 0 ts = 0.
Proof. induction ts as [|t ts IH]; simpl; [done|]. by rewrite Int64_lcm_0_l. Qed.

Lemma foldl_lcm_zero (ts : list Z) (acc : Z) :
  0 ∈ acc :: ts → foldl Int64.lcm acc ts = 0.
Proof.
  revert acc. induction ts as [|t ts IH]; intros acc Hin.
  - apply elem_of_cons in Hin as [<-|Hin]; [done|by apply elem_of_nil in Hin].
  - simpl. apply elem_of_cons in Hin as [<-|Hin].
    + by rewrite Int64_lcm_0_l, foldl_lcm_0.
    + apply elem_of_cons in Hin as [<-|Hin].
      * by rewrite Int64_lcm_0_r, foldl_lcm_0.
      * apply IH. by right.
Qed.

Lemma floor_divide_0_l (t : Z) : Int64.floor_divide 0 t = 0.
Proof. unfold Int64.floor_divide. case_decide; [done|]. by rewrite Zdiv_0_l. Qed.

Lemma zip_with_scale_0 (v : ndarray) (ts : list Z) :
  length ts = length v →
  zip_with (λ (row : list Z) (f : Z), (λ x, Int64.mul x f) <$> row) v
    (Int64.floor_divide 0 <$> ts)
  = (λ row : list Z, (λ _ : Z, 0) <$> row) <$> v.
Proof.
  revert ts. induction v as [|row v IH]; intros [|t ts] Hlen; try done.
  csimpl. rewrite IH by (simpl in Hlen; lia). f_equal.
  apply list_fmap_ext. intros _ x _. rewrite floor_divide_0_l.
  unfold Int64.mul. by rewrite Z.mul_0_r.
Qed.

Lemma py_sum_zeros (row : list Z) : py_sum ((λ _ : Z, 0) <$> row) = 0.
Proof.
  rewrite py_sum_wrap.
  assert (Zsum ((λ _ : Z, 0) <$> row) = 0) as ->; [|done].
  induction row as [|x row IH]; csimpl; [done|]. by rewrite IH.
Qed.

(** X12.  When some agent's row total is 0, [normalize] returns 0 and
    overwrites every entry of the table with 0 (the least common multiple
    with 0 is 0, and numpy's [0 // 0] is 0); [verify_normalized] then
    succeeds with 0. *)
Theorem normalize_zero_total (self : ValuationMatrix) :
  0 ∈ np_sum_axis1 (_v self) →
  normalize self
  = ({| _v := (λ row : list Z, (λ _ : Z, 0) <$> row) <$> _v self;
        num_of_agents := num_of_agents self;
        num_of_objects := num_of_objects self |}, Ok 0)
  ∧ verify_normalized (normalize self).1 = Ok 0.
Proof.
  intros Hzero.
  assert (normalize self
          = ({| _v := (λ row : list Z, (λ _ : Z, 0) <$> row) <$> _v self;
                num_of_agents := num_of_agents self;
                num_of_objects := num_of_objects self |}, Ok 0)) as Hnormalize.
  { unfold normalize.
    destruct (np_sum_axis1 (_v self)) as [|t ts] eqn:Htotals.
    { by apply elem_of_nil in Hzero. }
    cbn [np_lcm_reduce]. rewrite (foldl_lcm_zero ts t Hzero).
    rewrite zip_with_scale_0; [done|].
    rewrite <-Htotals. unfold np_sum_axis1. by rewrite length_fmap. }
  split; [done|]. rewrite Hnormalize. unfold verify_normalized, np_sum_axis1.
  cbn [fst _v]. rewrite <-list_fmap_compose.
  destruct (_v self) as [|row v]; [by apply elem_of_nil in Hzero|].
  csimpl. rewrite py_sum_zeros.
  change (py_getitem (0 :: _) 0) with (@Ok Z 0). simpl.
  rewrite decide_True; [done|]. constructor; [done|].
  apply Forall_fmap, Forall_true. intros r. apply py_sum_zeros.
Qed.

Lemma normalize_zero_total_witness :
  normalize (ValuationMatrix_init [[0; 0]; [1; 2]])
  = (ValuationMatrix_init [[0; 0]; [0; 0]], Ok 0).
Proof.
  apply (normalize_zero_total (ValuationMatrix_init [[0; 0]; [1; 2]])).
  by left.
Defined.

(** ** normalize without overflow *)

Lemma Zsum_nonneg (row : list Z) : Forall (λ x, 0 ≤ x) row → 0 ≤ Zsum row.
Proof. induction 1; simpl; lia. Qed.

Lemma Zsum_ge_elem (row : list Z) (x : Z) :
  Forall (λ x, 0 ≤ x) row → x ∈ row → x ≤ Zsum row.
Proof.
  induction 1 as [|y row Hy Hrow IH]; [by intros ?%elem_of_nil|].
  pose proof (Zsum_nonneg row Hrow). simpl.
  intros [->|Hx%IH]%elem_of_cons; lia.
Qed.

Lemma exact_rows_totals (v : ndarray) :
  exact_rows v →
  np_sum_axis1 v = Zsum <$> v ∧ Forall (λ t, 0 < t) (Zsum <$> v).
Proof.
  unfold exact_rows, np_sum_axis1. intros Hv. split.
  - apply Forall_fmap_ext_1. eapply Forall_impl; [exact Hv|].
    intros row [_ Hrow]. apply py_sum_exact.
    unfold Int64.in_range, Int64.min_signed. lia.
  - apply Forall_fmap. eapply Forall_impl; [exact Hv|]. by intros row [_ [? _]].
Qed.

Lemma scale_exact (L : Z) (row : list Z) :
  Forall (λ x, 0 ≤ x) row → 0 < Zsum row → 0 < L ≤ Int64.max_signed →
  (Zsum row | L) →
  (λ x, Int64.mul x (Int64.floor_divide L (Zsum row))) <$> row
  = (λ x, x * (L `div` Zsum row)) <$> row.
Proof.
  intros Hrow Ht HL Hdiv. apply list_fmap_ext. intros _ x Hx%list_elem_of_lookup_2.
  pose proof (Zsum_ge_elem row x Hrow Hx) as Hle.
  rewrite Forall_forall in Hrow. specialize (Hrow x Hx).
  unfold Int64.floor_divide. rewrite decide_False by lia.
  destruct Hdiv as [q Hq].
  assert (L `div` Zsum row = q) as -> by (rewrite Hq; apply Z.div_mul; lia).
  assert (0 < q) by nia.
  rewrite (Int64Facts.wrap_in_range q)
    by (unfold Int64.in_range, Int64.min_signed in *; nia).
  unfold Int64.mul. apply Int64Facts.wrap_in_range.
  unfold Int64.in_range, Int64.min_signed in *. nia.
Qed.

(** The integer branch of [normalize] when nothing wraps. *)
Lemma normalize_exact_rows (self : ValuationMatrix) :
  _v self ≠ [] → exact_rows (_v self) →
  lcm_of_totals (Zsum <$> _v self) ≤ Int64.max_signed →
  0 < lcm_of_totals (Zsum <$> _v self)
  ∧ Forall (λ row, (Zsum row | lcm_of_totals (Zsum <$> _v self))) (_v self)
  ∧ normalize self
    = ({| _v := scaled_rows (lcm_of_totals (Zsum <$> _v self)) (_v self);
          num_of_agents := num_of_agents self;
          num_of_objects := num_of_objects self |},
       Ok (lcm_of_totals (Zsum <$> _v self))).
Proof.
  intros Hne Hv Hfit. destruct (exact_rows_totals _ Hv) as [Htotals Hpos].
  unfold normalize. rewrite Htotals.
  destruct (Zsum <$> _v self) as [|t ts] eqn:Hts.
  { by apply fmap_nil_inv in Hts. }
  apply Forall_cons in Hpos as [Ht Hpos]. cbn [lcm_of_totals np_lcm_reduce] in *.
  destruct (foldl_lcm_pos ts t Ht Hpos) as (HL & Hdivt & Hdivts).
  rewrite foldl_lcm_exact by done. set (L := foldl Z.lcm t ts) in *.
  assert (Forall (λ s, (s | L)) (Zsum <$> _v self)) as Hdiv
    by (rewrite Hts; by constructor).
  apply (proj1 (Forall_fmap Zsum (λ s, (s | L)) (_v self))) in Hdiv.
  split; [done|]. split; [exact Hdiv|].
  do 2 f_equal. rewrite <-Hts. unfold scaled_rows.
  clear Hts Hdivt Hdivts Hpos Htotals Hne.
  induction Hv as [|row v [Hrow [Hpos _]] Hv IH]; [done|]. csimpl.
  apply Forall_cons in Hdiv as [Hdivrow Hdiv].
  rewrite IH by done. f_equal. by apply scale_exact.
Qed.

(** X13.  On a table with at least one row, non-negative entries, positive
    row totals, and a least common multiple [L] of the totals that fits in
    64 bits, [normalize] returns [L] and multiplies every row by the
    integer [L / total]: entries stay integers and every agent's relative
    values are kept ([v'[i][j] * total_i = v[i][j] * L]). *)
Theorem normalize_scales_rows (self : ValuationMatrix) :
  _v self ≠ [] → exact_rows (_v self) →
  lcm_of_totals (Zsum <$> _v self) ≤ Int64.max_signed →
  ∃ L self',
    normalize self = (self', Ok L)
    ∧ L = lcm_of_totals (Zsum <$> _v self) ∧ 0 < L
    ∧ _v self' = scaled_rows L (_v self)
    ∧ Forall2 (λ row row',
         (Zsum row | L) ∧ 1 ≤ L `div` Zsum row
         ∧ Forall2 (λ x x', x' = x * (L `div` Zsum row) ∧ x' * Zsum row = x * L)
             row row')
        (_v self) (_v self').
Proof.
  intros Hne Hv Hfit.
  destruct (normalize_exact_rows self Hne Hv Hfit) as (HL & Hdiv & Hnormalize).
  eexists _, _. split; [exact Hnormalize|]. split_and!; [done..|].
  cbn [_v]. unfold scaled_rows. apply Forall2_fmap_r, Forall_Forall2_diag.
  unfold exact_rows in Hv. rewrite Forall_forall in Hv. rewrite Forall_forall in Hdiv.
  apply Forall_forall. intros row Hrow.
  destruct (Hv row Hrow) as [_ [Hpos _]]. destruct (Hdiv row Hrow) as [q Hq].
  split; [by exists q|].
  assert (lcm_of_totals (Zsum <$> _v self) `div` Zsum row = q) as ->
    by (rewrite Hq; apply Z.div_mul; lia).
  split; [nia|]. apply Forall2_fmap_r, Forall_Forall2_diag, Forall_true.
  intros x. split; [done|]. rewrite Hq. lia.
Qed.

Lemma normalize_scales_rows_witness :
  ∃ L self', normalize (ValuationMatrix_init [[1; 1]; [1; 2]]) = (self', Ok L)
    ∧ L = 6 ∧ 0 < L ∧ _v self' = [[3; 3]; [2; 4]].
Proof.
  destruct (normalize_scales_rows (ValuationMatrix_init [[1; 1]; [1; 2]]))
    as (L & self' & Hnormalize & -> & HL & Hrows & _).
  - done.
  - repeat constructor; by vm_compute.
  - by vm_compute.
  - by exists 6, self'.
Defined.

Lemma nonincreasing_scale (row : list Z) (f : Z) :
  0 ≤ f → nonincreasing row → nonincreasing ((λ x, x * f) <$> row).
Proof.
  intros Hf Hrow j a b. rewrite !list_lookup_fmap.
  destruct (row !! j) as [a'|] eqn:Ha; simpl; [|done].
  destruct (row !! S j) as [b'|] eqn:Hb; simpl; [|done].
  intros [= <-] [= <-]. specialize (Hrow j a' b' Ha Hb). nia.
Qed.

(** X14.  Under the same conditions [normalize] keeps an ordered matrix
    ordered, and its result again has non-negative entries and positive
    totals that fit. *)
Theorem normalize_keeps_order (self : ValuationMatrix) :
  wf_matrix self → _v self ≠ [] → exact_rows (_v self) →
  lcm_of_totals (Zsum <$> _v self) ≤ Int64.max_signed →
  verify_ordered self = Ok () →
  verify_ordered (normalize self).1 = Ok ()
  ∧ exact_rows (_v (normalize self).1).
Proof.
  intros Hwf Hne Hv Hfit HOk. pose proof Hwf as [Hn Hm].
  pose proof (verify_ordered_Ok_inv self Hwf HOk) as Hall.
  destruct (normalize_exact_rows self Hne Hv Hfit) as (HL & Hdiv & ->).
  cbn [fst _v]. set (L := lcm_of_totals _) in *.
  rewrite Forall_forall in Hdiv. unfold exact_rows in Hv.
  rewrite Forall_forall in Hv. split.
  - apply verify_ordered_Ok.
    + split; [simpl; unfold scaled_rows; by rewrite length_fmap|]. simpl.
      intros ? (row & -> & Hrow)%list_elem_of_fmap. rewrite length_fmap. by apply Hm.
    + simpl. intros ? (row & -> & Hrow)%list_elem_of_fmap.
      apply nonincreasing_scale; [|by apply Hall].
      destruct (Hv row Hrow) as [_ [Hpos _]]. apply Z.div_pos; lia.
  - unfold exact_rows, scaled_rows. apply Forall_fmap, Forall_forall.
    intros row Hrow. simpl. destruct (Hv row Hrow) as [Hnonneg [Hpos _]].
    destruct (Hdiv row Hrow) as [q Hq].
    assert (L `div` Zsum row = q) as -> by (rewrite Hq; apply Z.div_mul; lia).
    assert (0 < q) by nia.
    assert (Zsum ((λ x, x * q) <$> row) = Zsum row * q) as ->.
    { clear. induction row as [|x row IH]; csimpl; [done|]. rewrite IH. lia. }
    split; [|clearbody L; nia].
    apply Forall_fmap. eapply Forall_impl; [exact Hnonneg|].
    intros x Hx. simpl in *. nia.
Qed.

Lemma normalize_keeps_order_witness :
  verify_ordered (normalize (ValuationMatrix_init [[2; 1]; [5; 1]])).1 = Ok ().
Proof.
  apply (normalize_keeps_order (ValuationMatrix_init [[2; 1]; [5; 1]])).
  - apply ValuationMatrix_init_wf. intros r r' Hr Hr'. set_unfold.
    by destruct Hr as [->|[->|[]]], Hr' as [->|[->|[]]].
  - done.
  - repeat constructor; by vm_compute.
  - by vm_compute.
  - reflexivity.
Defined.

(** ** matrix_from and printed agents *)

Lemma dict_as_list_idemp (l : list pyrow) :
  dict_as_list <$> (dict_as_list <$> l) = dict_as_list <$> l.
Proof. apply dict_as_list_id. rewrite <-replace_dicts_spec. apply replace_dicts_no_dict. Qed.

(** X15.  Calling [matrix_from] again on the argument it has already
    processed gives the same matrix and leaves the argument as the first
    call left it; and [matrix_from] of the matrix it returned is that
    matrix. *)
Theorem matrix_from_again (input : pyinput) :
  matrix_from (matrix_from input).1 = matrix_from input
  ∧ ∀ m, (matrix_from input).2 = Ok m → matrix_from (InMatrix m) = (InMatrix m, Ok m).
Proof.
  split; [|done]. destruct input as [m|a|l|d]; try done. simpl.
  by rewrite !replace_dicts_spec, dict_as_list_idemp.
Qed.

(** X16.  For a list whose rows have equal lengths, [matrix_from] returns
    a matrix whose table has the rows' values in order, with one agent per
    element of the list and as many objects as each row has values. *)
Theorem matrix_from_list_shape (l : list pyrow) :
  rectangular (pyrow_items <$> l) →
  ∃ m, (matrix_from (InList l)).2 = Ok m
    ∧ _v m = pyrow_items <$> l
    ∧ num_of_agents m = Z.of_nat (length l)
    ∧ (∀ r, r ∈ l → num_of_objects m = Z.of_nat (length (pyrow_items r)))
    ∧ (l = [] → num_of_objects m = 0)
    ∧ wf_matrix m.
Proof.
  intros Hrect. rewrite matrix_from_list. unfold ValuationMatrix_of_list.
  rewrite (np_array_Ok _ Hrect). simpl. eexists. split; [done|].
  pose proof (ValuationMatrix_init_wf _ Hrect) as Hwf.
  split_and!; [done|simpl; by rewrite length_fmap| |by intros ->|done].
  intros r Hr. symmetry. apply (proj2 Hwf). simpl. by apply list_elem_of_fmap_2.
Qed.

Lemma matrix_from_list_shape_witness :
  ∃ m, (matrix_from (InList [RowDict [("x", 1); ("y", 2)]; RowList [3; 4]])).2 = Ok m
    ∧ _v m = [[1; 2]; [3; 4]] ∧ num_of_agents m = 2.
Proof.
  assert (rectangular
            (pyrow_items <$> [RowDict [("x", 1); ("y", 2)]; RowList [3; 4]])) as Hrect.
  { change (rectangular [[1; 2]; [3; 4]]). intros r r' Hr Hr'. set_unfold.
    by destruct Hr as [->|[->|[]]], Hr' as [->|[->|[]]]. }
  destruct (matrix_from_list_shape [RowDict [("x", 1); ("y", 2)]; RowList [3; 4]] Hrect)
    as (m & Hm & Hv & Hn & _).
  by exists m.
Defined.

Lemma string_app_length (s1 s2 : string) :
  String.length (s1 +:+ s2) = (String.length s1 + String.length s2)%nat.
Proof. induction s1 as [|c s1 IH]; simpl; [done|]. by rewrite IH. Qed.

Lemma string_app_inj_r (s1 s2 t : string) : s1 +:+ t = s2 +:+ t → s1 = s2.
Proof.
  revert s2. induction s1 as [|c s1 IH]; intros [|c' s2] Heq; [done|..].
  - apply (f_equal String.length) in Heq.
    rewrite !string_app_length in Heq. simpl in Heq. lia.
  - apply (f_equal String.length) in Heq.
    rewrite !string_app_length in Heq. simpl in Heq. lia.
  - injection Heq as -> Heq. f_equal. by apply IH.
Qed.

(** X17.  For two agents with the same name and the same valuation, equal
    printed forms mean equal duplicity: the singular form is never the
    plural form, and the printed number determines the duplicity. *)
Theorem Agent_repr_duplicity_inj {Valuation : Type}
    (Valuation_repr : Valuation → string) (a b : Agent) :
  name a = name b →
  Valuation_repr (valuation a) = Valuation_repr (valuation b) →
  Agent_repr Valuation_repr a = Agent_repr Valuation_repr b →
  duplicity a = duplicity b.
Proof.
  intros Hname Hvaluation. unfold Agent_repr. rewrite Hname, Hvaluation.
  destruct (decide (duplicity a = 1)) as [Ha|Ha],
    (decide (duplicity b = 1)) as [Hb|Hb]; [congruence|..].
  - intros Heq%(inj (String.app _)). discriminate Heq.
  - intros Heq%(inj (String.app _)). discriminate Heq.
  - intros Heq%(inj (String.app _)).
    apply (inj (String.app " are ")) in Heq.
    apply string_app_inj_r in Heq. by apply (inj pretty).
Qed.

Lemma Agent_repr_duplicity_inj_witness :
  duplicity (mkAgent "V" (Some "Anonymous") 2) = duplicity (mkAgent "V" None 2).
Proof.
  apply (Agent_repr_duplicity_inj (λ s : string, s)
           (mkAgent "V" (Some "Anonymous") 2) (mkAgent "V" None 2)); reflexivity.
Defined.
